(** * CPU reference script driver (cpu_ref/rsCpuScript.cpp)

    A shallow embedding of [RsdCpuScriptImpl] and of the helpers of its
    translation unit: the compatibility-library loader ([getRandomString],
    [ensureCacheDirExists], [loadSOHelper], [strgets], [init] and the
    destructor), the global-variable setters, the ForEach launch set-up and
    the invocation wrappers.

    Conventions.
    - [uint32_t], [size_t] and pointers are values of [N]; [0] is [NULL].
      No arithmetic of the embedded functions can wrap, except where a
      wrap-around is written out.
    - The two builds of the file ([RS_COMPATIBILITY_LIB] defined or not) and
      the behaviour of the [rsAssert] macro, which is declared in a header
      outside this translation unit, are parameters of type [Build].
    - Each stateful function is a computation in the monad [M S]: it maps a
      state to an outcome and the state reached.  An outcome is a normal
      return or a fault. *)

From stdpp Require Import gmap strings list fin_maps.
From Stdlib Require Import NArith ZArith Lia Ascii.

Local Open Scope N_scope.

(** ** Build configuration *)

Record Build := mkBuild {
  (** [#ifdef RS_COMPATIBILITY_LIB] *)
  RS_COMPATIBILITY_LIB : bool;
  (** What [rsAssert(c)] does when [c] is false: it always records the
      failure; when [rsAssert_fatal] is set it also stops the program. *)
  rsAssert_fatal : bool
}.

(** ** Outcomes and the state monad *)

Inductive fault :=
| AssertAbort      (* a failed rsAssert stopped the program *)
| OutOfBounds      (* an array was indexed outside its allocation *)
| NullCall         (* a call through a NULL function pointer *)
| UseAfterFree     (* an array was read or written after delete[] *)
| DoubleFree.      (* delete[] on storage that was already released *)

Inductive outcome (A : Type) :=
| Done (a : A)
| Fault (f : fault).
Arguments Done {A} a.
Arguments Fault {A} f.

Definition M (S A : Type) : Type := S -> outcome A * S.

Definition m_ret {S A} (a : A) : M S A := fun s => (Done a, s).

Definition m_bind {S A B} (k : A -> M S B) (c : M S A) : M S B :=
  fun s => match c s with
           | (Done a, s') => k a s'
           | (Fault f, s') => (Fault f, s')
           end.

#[export] Instance M_ret {S} : MRet (M S) := @m_ret S.
#[export] Instance M_bind {S} : MBind (M S) := @m_bind S.

Definition m_get {S} : M S S := fun s => (Done s, s).
Definition m_modify {S} (f : S -> S) : M S unit := fun s => (Done tt, f s).
Definition m_fault {S A} (f : fault) : M S A := fun s => (Fault f, s).

(** [rsAssert(c)], over any state that can record the failed condition:
    nothing when [c] holds; otherwise the failure is recorded and, in a
    build with fatal assertions, the program stops. *)
Definition rsAssertWith {S} (record : string -> S -> S) (b : Build)
    (c : bool) (cond : string) : M S unit :=
  if c then mret tt
  else _ ← m_modify (record cond);
       if rsAssert_fatal b then m_fault AssertAbort else mret tt.

(** [table[i]]: reading outside the table is a fault. *)
Definition index {S A} (table : list A) (i : N) : M S A :=
  match table !! N.to_nat i with
  | Some v => mret v
  | None => m_fault OutOfBounds
  end.

(** ** The launch descriptor and its inputs *)

Module Launch.

(** [Allocation], as far as this file reads it: the backing store of level
    of detail 0 and the dimensions and element size of its type. *)
Record Allocation := mkAllocation {
  mallocPtr : N;             (* mHal.drvState.lod[0].mallocPtr *)
  stride : N;                (* mHal.drvState.lod[0].stride *)
  getDimX : N;               (* getType()->getDimX() *)
  getDimY : N;
  getDimZ : N;
  getElementSizeBytes : N    (* getType()->getElementSizeBytes() *)
}.

Record RsScriptCall := mkScriptCall {
  sc_xStart : N; sc_xEnd : N;
  sc_yStart : N; sc_yEnd : N;
  sc_zStart : N; sc_zEnd : N
}.

(** [RsForEachStubParamStruct], the fields written here. *)
Record RsForEachStubParamStruct := mkFep {
  ptrIn : N; ptrOut : N;
  usr : N; usrLen : N;
  dimX : N; dimY : N; dimZ : N;
  eStrideIn : N; eStrideOut : N;
  yStrideIn : N; yStrideOut : N;
  slot : N
}.

Record MTLaunchStruct := mkMtls {
  fep : RsForEachStubParamStruct;
  script : N;
  kernel : N;
  sig : N;
  ain : option Allocation;
  aout : option Allocation;
  rsc : N;
  mSliceNum : N;
  mSliceSize : N;
  isThreadable : bool;
  xStart : N; xEnd : N;
  yStart : N; yEnd : N;
  zStart : N; zEnd : N;
  arrayStart : N; arrayEnd : N
}.

(** [memset(mtls, 0, sizeof(MTLaunchStruct))] *)
Definition mtls_zero : MTLaunchStruct :=
  mkMtls (mkFep 0 0 0 0 0 0 0 0 0 0 0 0) 0 0 0 None None 0 0 0 false
         0 0 0 0 0 0 0 0.

Definition set_dims (x y z : N) (m : MTLaunchStruct) : MTLaunchStruct :=
  let f := fep m in
  mkMtls (mkFep (ptrIn f) (ptrOut f) (usr f) (usrLen f) x y z
                (eStrideIn f) (eStrideOut f) (yStrideIn f) (yStrideOut f)
                (slot f))
         (script m) (kernel m) (sig m) (ain m) (aout m) (rsc m)
         (mSliceNum m) (mSliceSize m) (isThreadable m)
         (xStart m) (xEnd m) (yStart m) (yEnd m) (zStart m) (zEnd m)
         (arrayStart m) (arrayEnd m).

Definition set_xStart (v : N) (m : MTLaunchStruct) : MTLaunchStruct :=
  mkMtls (fep m) (script m) (kernel m) (sig m) (ain m) (aout m) (rsc m)
         (mSliceNum m) (mSliceSize m) (isThreadable m)
         v (xEnd m) (yStart m) (yEnd m) (zStart m) (zEnd m)
         (arrayStart m) (arrayEnd m).

Definition set_xEnd (v : N) (m : MTLaunchStruct) : MTLaunchStruct :=
  mkMtls (fep m) (script m) (kernel m) (sig m) (ain m) (aout m) (rsc m)
         (mSliceNum m) (mSliceSize m) (isThreadable m)
         (xStart m) v (yStart m) (yEnd m) (zStart m) (zEnd m)
         (arrayStart m) (arrayEnd m).

Definition set_yStart (v : N) (m : MTLaunchStruct) : MTLaunchStruct :=
  mkMtls (fep m) (script m) (kernel m) (sig m) (ain m) (aout m) (rsc m)
         (mSliceNum m) (mSliceSize m) (isThreadable m)
         (xStart m) (xEnd m) v (yEnd m) (zStart m) (zEnd m)
         (arrayStart m) (arrayEnd m).

Definition set_yEnd (v : N) (m : MTLaunchStruct) : MTLaunchStruct :=
  mkMtls (fep m) (script m) (kernel m) (sig m) (ain m) (aout m) (rsc m)
         (mSliceNum m) (mSliceSize m) (isThreadable m)
         (xStart m) (xEnd m) (yStart m) v (zStart m) (zEnd m)
         (arrayStart m) (arrayEnd m).

Definition set_zStart (v : N) (m : MTLaunchStruct) : MTLaunchStruct :=
  mkMtls (fep m) (script m) (kernel m) (sig m) (ain m) (aout m) (rsc m)
         (mSliceNum m) (mSliceSize m) (isThreadable m)
         (xStart m) (xEnd m) (yStart m) (yEnd m) v (zEnd m)
         (arrayStart m) (arrayEnd m).

Definition set_zEnd (v : N) (m : MTLaunchStruct) : MTLaunchStruct :=
  mkMtls (fep m) (script m) (kernel m) (sig m) (ain m) (aout m) (rsc m)
         (mSliceNum m) (mSliceSize m) (isThreadable m)
         (xStart m) (xEnd m) (yStart m) (yEnd m) (zStart m) v
         (arrayStart m) (arrayEnd m).

(** Lines 808-811: every end bound is raised to at least 1. *)
Definition floor_ends (m : MTLaunchStruct) : MTLaunchStruct :=
  mkMtls (fep m) (script m) (kernel m) (sig m) (ain m) (aout m) (rsc m)
         (mSliceNum m) (mSliceSize m) (isThreadable m)
         (xStart m) (N.max 1 (xEnd m))
         (yStart m) (N.max 1 (yEnd m))
         (zStart m) (N.max 1 (zEnd m))
         (arrayStart m) (N.max 1 (arrayEnd m)).

(** Lines 815-839: the context, the buffers, the user data, the slice
    defaults, the threadability flag and the pointers and strides of the two
    buffers. [yStrideIn] and [yStrideOut] are only written when the buffer
    is present. *)
Definition set_bindings (ctx : N) (a_in a_out : option Allocation)
    (usr_ usrLen_ : N) (threadable : bool) (m : MTLaunchStruct)
    : MTLaunchStruct :=
  let f := fep m in
  mkMtls (mkFep (from_option mallocPtr 0 a_in)
                (from_option mallocPtr 0 a_out)
                usr_ usrLen_ (dimX f) (dimY f) (dimZ f)
                (from_option getElementSizeBytes 0 a_in)
                (from_option getElementSizeBytes 0 a_out)
                (from_option stride (yStrideIn f) a_in)
                (from_option stride (yStrideOut f) a_out)
                (slot f))
         (script m) (kernel m) (sig m) a_in a_out ctx
         0 1 threadable
         (xStart m) (xEnd m) (yStart m) (yEnd m) (zStart m) (zEnd m)
         (arrayStart m) (arrayEnd m).

(** Lines 860-871: [forEachKernelSetup] writes the owner, the slot, the
    kernel pointer and its signature. *)
Definition set_script_slot (this_ slot_ : N) (m : MTLaunchStruct)
    : MTLaunchStruct :=
  let f := fep m in
  mkMtls (mkFep (ptrIn f) (ptrOut f) (usr f) (usrLen f)
                (dimX f) (dimY f) (dimZ f)
                (eStrideIn f) (eStrideOut f) (yStrideIn f) (yStrideOut f)
                slot_)
         this_ (kernel m) (sig m) (ain m) (aout m) (rsc m)
         (mSliceNum m) (mSliceSize m) (isThreadable m)
         (xStart m) (xEnd m) (yStart m) (yEnd m) (zStart m) (zEnd m)
         (arrayStart m) (arrayEnd m).

Definition set_kernel (k : N) (m : MTLaunchStruct) : MTLaunchStruct :=
  mkMtls (fep m) (script m) k (sig m) (ain m) (aout m) (rsc m)
         (mSliceNum m) (mSliceSize m) (isThreadable m)
         (xStart m) (xEnd m) (yStart m) (yEnd m) (zStart m) (zEnd m)
         (arrayStart m) (arrayEnd m).

Definition set_sig (g : N) (m : MTLaunchStruct) : MTLaunchStruct :=
  mkMtls (fep m) (script m) (kernel m) g (ain m) (aout m) (rsc m)
         (mSliceNum m) (mSliceSize m) (isThreadable m)
         (xStart m) (xEnd m) (yStart m) (yEnd m) (zStart m) (zEnd m)
         (arrayStart m) (arrayEnd m).

(** ** Events and state of a launch *)

Inductive RsError := RS_ERROR_BAD_SCRIPT.

Inductive event :=
| EvSetError (e : RsError) (msg : string)  (* mCtx->getContext()->setError *)
| EvAssertFailed (cond : string)           (* an rsAssert whose condition is false *)
| EvNativeCall (fn : N) (tls_seen : N).    (* script code entered, with the
                                              thread-local script it can see *)

(** The part of the script object that launches and invocations read.
    In the compatibility build the kernel table is the pair of arrays
    [mForEachFunctions] and [mForEachSignatures]; otherwise it is the pair of
    vectors [mExecutable->getExportForeachFuncAddrs()] and
    [mExecutable->getInfo().getExportForeachFuncs()]. *)
Record ScriptImpl := mkScriptImpl {
  this : N;
  mCtx : N;
  mIsThreadable : bool;
  mRoot : N;
  mInit : N;
  mFreeChildren : N;
  mInvokeFunctions : list N;
  mForEachFunctions : list N;
  mForEachSignatures : list N
}.

Record State := mkState {
  mtls : MTLaunchStruct;   (* the descriptor the set-up functions write *)
  tls : N;                 (* the thread-local script pointer (setTLS) *)
  events : list event      (* oldest first *)
}.

Definition upd_mtls (f : MTLaunchStruct -> MTLaunchStruct) : M State unit :=
  m_modify (fun s => mkState (f (mtls s)) (tls s) (events s)).

Definition emit (e : event) : M State unit :=
  m_modify (fun s => mkState (mtls s) (tls s) (events s ++ [e])).

Definition setError (e : RsError) (msg : string) : M State unit :=
  emit (EvSetError e msg).

Definition rsAssert : Build -> bool -> string -> M State unit :=
  rsAssertWith
    (fun cond s => mkState (mtls s) (tls s) (events s ++ [EvAssertFailed cond])).

(** [mCtx->setTLS(s)]: installs [s] and returns the previous value. *)
Definition setTLS (s : N) : M State N :=
  fun st => (Done (tls st), mkState (mtls st) s (events st)).

(** *** forEachMtlsSetup (lines 743-840) *)

(** [!sc || (sc->xEnd == 0)] and its analogues. *)
Definition unrestricted (sc : option RsScriptCall) (e : RsScriptCall -> N)
    : bool :=
  match sc with
  | None => true
  | Some c => e c =? 0
  end.

(** One of the three blocks of lines 775-806. The result is [false] when the
    block executes its [return]. [dim] reads [mtls->fep.dimX] (or Y, Z);
    [rsMin] is the minimum. *)
Definition restrict_axis (b : Build) (sc : option RsScriptCall)
    (dim : RsForEachStubParamStruct -> N)
    (s e : RsScriptCall -> N)
    (set_start set_end : N -> MTLaunchStruct -> MTLaunchStruct)
    (ax : string) : M State bool :=
  st ← m_get;
  let d := dim (fep (mtls st)) in
  match sc with
  | None => _ ← upd_mtls (set_end d); mret true
  | Some c =>
      if e c =? 0 then _ ← upd_mtls (set_end d); mret true
      else
        _ ← rsAssert b (s c <? d) (ax +:+ "Start < dim");
        _ ← rsAssert b (e c <=? d) (ax +:+ "End <= dim");
        _ ← rsAssert b (s c <? e c) (ax +:+ "Start < " +:+ ax +:+ "End");
        _ ← upd_mtls (set_start (N.min d (s c)));
        _ ← upd_mtls (set_end (N.min d (e c)));
        mret (negb (N.min d (e c) <=? N.min d (s c)))
  end.

(** [ain && ain->mHal.drvState.lod[0].mallocPtr == NULL] *)
Definition unbacked (a : option Allocation) : bool :=
  match a with
  | Some x => mallocPtr x =? 0
  | None => false
  end.

(** Lines 775-839, after the dimensions have been taken from a buffer. *)
Definition forEachMtlsSetup_domain (b : Build) (self : ScriptImpl)
    (a_in a_out : option Allocation) (usr_ usrLen_ : N)
    (sc : option RsScriptCall) : M State unit :=
  okx ← restrict_axis b sc dimX sc_xStart sc_xEnd set_xStart set_xEnd "x";
  if negb okx then mret tt else
  oky ← restrict_axis b sc dimY sc_yStart sc_yEnd set_yStart set_yEnd "y";
  if negb oky then mret tt else
  okz ← restrict_axis b sc dimZ sc_zStart sc_zEnd set_zStart set_zEnd "z";
  if negb okz then mret tt else
  _ ← upd_mtls floor_ends;
  _ ← rsAssert b (match a_in with
                  | None => true
                  | Some a => getDimZ a =? 0
                  end) "!ain || (ain->getType()->getDimZ() == 0)";
  upd_mtls (set_bindings (mCtx self) a_in a_out usr_ usrLen_
                         (mIsThreadable self)).

Definition forEachMtlsSetup (b : Build) (self : ScriptImpl)
    (a_in a_out : option Allocation) (usr_ usrLen_ : N)
    (sc : option RsScriptCall) : M State unit :=
  _ ← upd_mtls (fun _ => mtls_zero);
  if unbacked a_in then
    setError RS_ERROR_BAD_SCRIPT "rsForEach called with null in allocations"
  else if unbacked a_out then
    setError RS_ERROR_BAD_SCRIPT "rsForEach called with null out allocations"
  else
    match a_in, a_out with
    | Some a, _ =>
        _ ← upd_mtls (set_dims (getDimX a) (getDimY a) (getDimZ a));
        forEachMtlsSetup_domain b self a_in a_out usr_ usrLen_ sc
    | None, Some a =>
        _ ← upd_mtls (set_dims (getDimX a) (getDimY a) (getDimZ a));
        forEachMtlsSetup_domain b self a_in a_out usr_ usrLen_ sc
    | None, None =>
        setError RS_ERROR_BAD_SCRIPT "rsForEach called with null allocations"
    end.

(** *** forEachKernelSetup (lines 859-873) *)

Definition forEachKernelSetup (b : Build) (self : ScriptImpl) (slot_ : N)
    : M State unit :=
  _ ← upd_mtls (set_script_slot (this self) slot_);
  _ ← (if RS_COMPATIBILITY_LIB b then mret tt
       else rsAssert b (slot_ <? N.of_nat (length (mForEachFunctions self)))
              "slot < mExecutable->getExportForeachFuncAddrs().size()");
  k ← index (mForEachFunctions self) slot_;
  _ ← upd_mtls (set_kernel k);
  _ ← rsAssert b (negb (k =? 0)) "mtls->kernel != NULL";
  g ← index (mForEachSignatures self) slot_;
  upd_mtls (set_sig g).

(** *** Script code and the dispatcher *)

(** Script code is outside this file. What a call of the function at
    address [fn] does to the thread-local script pointer, and the value it
    returns, are given by [native fn tls_at_entry]. *)
Definition Native := N -> N -> N * Z.

Definition call_native (native : Native) (fn : N) : M State Z :=
  if fn =? 0 then m_fault NullCall
  else fun st =>
    let r := native fn (tls st) in
    (Done (snd r),
     mkState (mtls st) (fst r) (events st ++ [EvNativeCall fn (tls st)])).

Definition range (lo hi : N) : list N :=
  map (fun k => lo + N.of_nat k) (seq 0 (N.to_nat (hi - lo))).

(** The slices of a descriptor: one per row of its domain. *)
Definition slices (m : MTLaunchStruct) : list (N * N * N) :=
  ar ← range (arrayStart m) (arrayEnd m);
  z ← range (zStart m) (zEnd m);
  y ← range (yStart m) (yEnd m);
  [(ar, z, y)].

(** Modelled from the spec: [mCtx->launchThreads], the parallel dispatcher
    of rsCpuCore.cpp, is not in this file. Sections 4.4 and 6 of the
    specification: the domain of the descriptor is partitioned into
    dispatch units of one row each, and the dispatcher runs the per-slice
    callback, which enters the kernel, once per unit and returns when all
    of them are complete. The model runs them one after the other. *)
Definition launchThreads (native : Native) (m : MTLaunchStruct)
    : M State unit :=
  foldr (fun _ rest => _ ← call_native native (kernel m); rest)
        (mret tt) (slices m).

(** *** The invocation wrappers (lines 843-906) *)

Definition invokeForEach (b : Build) (native : Native) (self : ScriptImpl)
    (slot_ : N) (a_in a_out : option Allocation) (usr_ usrLen_ : N)
    (sc : option RsScriptCall) : M State unit :=
  _ ← forEachMtlsSetup b self a_in a_out usr_ usrLen_ sc;
  _ ← forEachKernelSetup b self slot_;
  oldTLS ← setTLS (this self);
  st ← m_get;
  _ ← launchThreads native (mtls st);
  _ ← setTLS oldTLS;
  mret tt.

Definition invokeRoot (native : Native) (self : ScriptImpl) : M State Z :=
  oldTLS ← setTLS (this self);
  r ← call_native native (mRoot self);
  _ ← setTLS oldTLS;
  mret r.

Definition invokeInit (native : Native) (self : ScriptImpl) : M State unit :=
  if mInit self =? 0 then mret tt
  else _ ← call_native native (mInit self); mret tt.

Definition invokeFreeChildren (native : Native) (self : ScriptImpl)
    : M State unit :=
  if mFreeChildren self =? 0 then mret tt
  else _ ← call_native native (mFreeChildren self); mret tt.

Definition invokeFunction (native : Native) (self : ScriptImpl) (slot_ : N)
    : M State unit :=
  oldTLS ← setTLS (this self);
  fn ← index (mInvokeFunctions self) slot_;
  _ ← call_native native fn;
  _ ← setTLS oldTLS;
  mret tt.

End Launch.

(** ** Exported variables of object type *)

Module Vars.

(** [sizeof(int)] and the size of an object reference, on the 32-bit ABIs
    this driver is built for. *)
Definition sizeof_int : N := 4.
Definition sizeof_ptr : N := 4.

(** The byte at an address; unmapped bytes read as 0. *)
Definition load_byte (m : gmap N N) (a : N) : N := default 0 (m !! a).

(** The little-endian pointer stored in the [sizeof_ptr] bytes at [a]. *)
Definition load_ptr (m : gmap N N) (a : N) : N :=
  load_byte m a + 256 * (load_byte m (a + 1) +
    256 * (load_byte m (a + 2) + 256 * load_byte m (a + 3))).

(** Modelled from the spec: the element descriptor of the buffer and
    allocation object model (section 6), which is not in this file. An
    element has a size in bytes and carries object references at fixed
    byte offsets. *)
Record Element := mkElement {
  getSizeBytes : N;
  refOffsets : list N
}.

Inductive event :=
| EvIncRef (obj : N)
| EvDecRef (obj : N)
| EvAssertFailed (cond : string).

Record State := mkState {
  mem : gmap N N;             (* memory, by byte address *)
  refs : gmap N positive;     (* the live objects and their reference counts *)
  events : list event         (* oldest first *)
}.

(** Modelled from the spec: taking and dropping a reference of the object
    at address [h]. The object is destroyed with the drop of its last
    reference; a destroyed object has no count. *)
Definition incSysRef (h : N) (r : gmap N positive) : gmap N positive :=
  match r !! h with
  | Some p => <[h := Pos.succ p]> r
  | None => r
  end.

Definition decSysRef (h : N) (r : gmap N positive) : gmap N positive :=
  match r !! h with
  | Some 1%positive => delete h r
  | Some p => <[h := Pos.pred p]> r
  | None => r
  end.

(** The objects the element stored at [ptr] refers to: the non-NULL
    references at its offsets. *)
Definition element_refs (elem : Element) (m : gmap N N) (ptr : N) : list N :=
  List.filter (fun h => negb (h =? 0))
              (map (fun off => load_ptr m (ptr + off)) (refOffsets elem)).

(** Modelled from the spec: [Element::incRefs] and [Element::decRefs] take,
    respectively drop, one reference of each object the element stored at
    [ptr] refers to. *)
Definition incRefs (elem : Element) (ptr : N) : M State unit :=
  m_modify (fun st =>
    let hs := element_refs elem (mem st) ptr in
    mkState (mem st) (foldl (fun r h => incSysRef h r) (refs st) hs)
            (events st ++ map EvIncRef hs)).

Definition decRefs (elem : Element) (ptr : N) : M State unit :=
  m_modify (fun st =>
    let hs := element_refs elem (mem st) ptr in
    mkState (mem st) (foldl (fun r h => decSysRef h r) (refs st) hs)
            (events st ++ map EvDecRef hs)).

Definition rsAssert : Build -> bool -> string -> M State unit :=
  rsAssertWith
    (fun cond s => mkState (mem s) (refs s) (events s ++ [EvAssertFailed cond])).

(** [memcpy(dst, src, n)]: the [n] bytes at [src], as they were before the
    call, are stored at [dst]. *)
Definition memcpy_mem (dst src : N) (n : N) (m : gmap N N) : gmap N N :=
  foldr (fun k acc => <[dst + N.of_nat k := load_byte m (src + N.of_nat k)]> acc)
        m (seq 0 (N.to_nat n)).

Definition memcpy (dst src n : N) : M State unit :=
  m_modify (fun st => mkState (memcpy_mem dst src n (mem st)) (refs st)
                              (events st)).

(** [for (size_t i = 0; i < n; i++) { body(p); p += stride; }] *)
Fixpoint each_element (body : N -> M State unit) (n : nat) (p stride : N)
    : M State unit :=
  match n with
  | O => mret tt
  | S n' => _ ← body p; each_element body n' (p + stride) stride
  end.

(** [setGlobalVarWithElemDims] (lines 949-988). [fieldAddress] is
    [mFieldAddress] in the compatibility build and
    [mExecutable->getExportVarAddrs()] otherwise; [dims] is the array
    [dims] points to. *)
Definition setGlobalVarWithElemDims (b : Build) (fieldAddress : list N)
    (slot_ : N) (data dataLength : N) (elem : Element)
    (dims : list N) (dimLength : N) : M State unit :=
  destPtr ← index fieldAddress slot_;
  if destPtr =? 0 then mret tt
  else
    let dimLength := dimLength / sizeof_int in
    _ ← rsAssert b (dimLength =? 1) "dimLength == 1";
    _ ← (if dimLength =? 1 then
           let stride := getSizeBytes elem in
           n ← index dims 0;
           _ ← each_element (incRefs elem) (N.to_nat n) data stride;
           each_element (decRefs elem) (N.to_nat n) destPtr stride
         else mret tt);
    memcpy destPtr data dataLength.

End Vars.

(** ** The compatibility-library loader *)

Module Loader.

(** *** The process and its file system *)

Inductive node :=
| Dir (rwx : bool)          (* a directory; [rwx]: the process may read, write
                               and search it *)
| Lib                       (* a shared object the dynamic linker accepts *)
| Plain                     (* any other file *)
| Link (target : string).   (* a symbolic link *)

Inductive event :=
| EvLock | EvUnlock                       (* mCtx->lockMutex / unlockMutex *)
| EvMkdir (path : string)
| EvSymlink (target link : string)
| EvUnlink (path : string)
| EvDlopen (path : string) (handle : N)   (* handle 0: the load failed *)
| EvDlclose (handle : N)
| EvNew (addr : N) (count : N)            (* new T[count] *)
| EvDelete (addr : N)                     (* delete[] of a non-NULL pointer *)
| EvClearObject (addr : N)                (* rsrClearObject *)
| EvAssertFailed (cond : string).

(** The members of [RsdCpuScriptImpl] the compatibility build has. Arrays
    are addresses of heap blocks. *)
Record ScriptObj := mkObj {
  mScriptSO : N;
  mRoot : N; mRootExpand : N; mInit : N; mFreeChildren : N;
  mInvokeFunctions : N;
  mForEachFunctions : N;
  mFieldAddress : N;
  mFieldIsObject : N;
  mForEachSignatures : N;
  mBoundAllocs : N;
  mExportedVariableCount : N;
  mExportedFunctionCount : N
}.

(** Where [rsInfo] points: nowhere, at the rest of the descriptor (the
    terminating NUL follows it), or beyond the terminating NUL. *)
Inductive cursor :=
| Null
| At (rest : string)
| PastEnd.

Record State := mkState {
  fs : gmap string node;           (* the directory entries, by path *)
  LoadedLibraries : gset string;   (* the static set of loadSOHelper *)
  dl_names : gmap string N;        (* the linker's objects, by the name they
                                      were opened under *)
  dl_open : gmap N nat;            (* outstanding dlopen()s of each handle *)
  rng_pos : nat;                   (* arc4random() calls made so far *)
  heap : gmap N (list N);          (* the live array blocks *)
  next_addr : N;                   (* the next address [new] returns *)
  obj : ScriptObj;
  rsInfo : cursor;
  events : list event              (* oldest first *)
}.

Definition set_fs (f : gmap string node) (s : State) : State :=
  mkState f (LoadedLibraries s) (dl_names s) (dl_open s) (rng_pos s)
          (heap s) (next_addr s) (obj s) (rsInfo s) (events s).

Definition set_LoadedLibraries (l : gset string) (s : State) : State :=
  mkState (fs s) l (dl_names s) (dl_open s) (rng_pos s)
          (heap s) (next_addr s) (obj s) (rsInfo s) (events s).

Definition set_dl (names : gmap string N) (opened : gmap N nat) (s : State)
    : State :=
  mkState (fs s) (LoadedLibraries s) names opened (rng_pos s)
          (heap s) (next_addr s) (obj s) (rsInfo s) (events s).

Definition set_rng_pos (p : nat) (s : State) : State :=
  mkState (fs s) (LoadedLibraries s) (dl_names s) (dl_open s) p
          (heap s) (next_addr s) (obj s) (rsInfo s) (events s).

Definition set_heap (h : gmap N (list N)) (a : N) (s : State) : State :=
  mkState (fs s) (LoadedLibraries s) (dl_names s) (dl_open s) (rng_pos s)
          h a (obj s) (rsInfo s) (events s).

Definition set_obj (o : ScriptObj) (s : State) : State :=
  mkState (fs s) (LoadedLibraries s) (dl_names s) (dl_open s) (rng_pos s)
          (heap s) (next_addr s) o (rsInfo s) (events s).

Definition set_rsInfo (c : cursor) (s : State) : State :=
  mkState (fs s) (LoadedLibraries s) (dl_names s) (dl_open s) (rng_pos s)
          (heap s) (next_addr s) (obj s) c (events s).

Definition add_event (e : event) (s : State) : State :=
  mkState (fs s) (LoadedLibraries s) (dl_names s) (dl_open s) (rng_pos s)
          (heap s) (next_addr s) (obj s) (rsInfo s) (events s ++ [e]).

Definition emit (e : event) : M State unit := m_modify (add_event e).

(** What the process cannot see into: the random number generator, the
    symbols of each loaded object and its [.rs.info] string. *)
Record Env := mkEnv {
  arc4random : nat -> N;             (* the n-th value drawn *)
  dlsym : N -> string -> N;          (* handle, symbol name: address or NULL *)
  rs_info : N -> option string       (* the string [.rs.info] names, if any *)
}.

(** **** System calls. Each returns [true] for the C result 0. *)

(** The entry a path names once symbolic links are followed; a chain of
    more than [fuel] links names nothing. *)
Fixpoint resolve (fuel : nat) (f : gmap string node) (path : string)
    : option node :=
  match f !! path with
  | Some (Link t) =>
      match fuel with
      | O => None
      | S fuel' => resolve fuel' f t
      end
  | o => o
  end.

(** [access(path, F_OK) == 0] *)
Definition access_F_OK (path : string) : M State bool :=
  s ← m_get; mret (bool_decide (is_Some (resolve 8 (fs s) path))).

(** [access(path, R_OK | W_OK | X_OK) == 0]. Permissions are modelled for
    directories only: an entry of another kind grants all three. *)
Definition access_RWX (path : string) : M State bool :=
  s ← m_get;
  mret (match resolve 8 (fs s) path with
        | Some (Dir rwx) => rwx
        | Some _ => true
        | None => false
        end).

(** [mkdir(path, 0700) == 0]: fails when the entry exists. *)
Definition mkdir (path : string) : M State bool :=
  s ← m_get;
  match fs s !! path with
  | Some _ => mret false
  | None =>
      _ ← m_modify (set_fs (<[path := Dir true]> (fs s)));
      _ ← emit (EvMkdir path);
      mret true
  end.

(** [symlink(target, link) == 0]: fails when the entry exists. *)
Definition symlink (target link : string) : M State bool :=
  s ← m_get;
  match fs s !! link with
  | Some _ => mret false
  | None =>
      _ ← m_modify (set_fs (<[link := Link target]> (fs s)));
      _ ← emit (EvSymlink target link);
      mret true
  end.

(** [unlink(path) == 0]: removes the entry itself; fails when there is none
    or when it is a directory. *)
Definition unlink (path : string) : M State bool :=
  s ← m_get;
  match fs s !! path with
  | None | Some (Dir _) => mret false
  | Some _ =>
      _ ← m_modify (set_fs (delete path (fs s)));
      _ ← emit (EvUnlink path);
      mret true
  end.

(** [dlopen(path, RTLD_NOW | RTLD_LOCAL)]. Objects are shared by the name
    they are opened under: a name opened before yields the same handle
    again; a new name that leads to a shared object yields a new handle,
    with its own copy of the object's globals. *)
Definition dlopen (path : string) : M State N :=
  s ← m_get;
  match resolve 8 (fs s) path with
  | Some Lib =>
      let h := match dl_names s !! path with
               | Some h => h
               | None => 1 + N.of_nat (size (dl_names s))
               end in
      _ ← m_modify (set_dl (<[path := h]> (dl_names s))
                           (<[h := S (default O (dl_open s !! h))]> (dl_open s)));
      _ ← emit (EvDlopen path h);
      mret h
  | _ => _ ← emit (EvDlopen path 0); mret 0
  end.

(** [dlclose(h)]: closing a handle that is not open is a fault. *)
Definition dlclose (h : N) : M State unit :=
  s ← m_get;
  match dl_open s !! h with
  | Some (S n) =>
      _ ← m_modify (set_dl (dl_names s) (<[h := n]> (dl_open s)));
      emit (EvDlclose h)
  | _ => m_fault DoubleFree
  end.

(** *** getRandomString (lines 45-64) *)

(** The character one draw yields: [r = arc4random() & 0xffff; r %= 62]. *)
Definition random_char (drawn : N) : ascii :=
  let r := (N.land drawn 0xffff) mod 62 in
  if r <? 26 then ascii_of_N (97 + r)              (* 'a' + r *)
  else if r <? 52 then ascii_of_N (65 + (r - 26))   (* 'A' + (r - 26) *)
  else ascii_of_N (48 + (r - 52)).                 (* '0' + (r - 52) *)

Fixpoint random_chars (rnd : nat -> N) (pos len : nat) : string :=
  match len with
  | O => EmptyString
  | S len' => String (random_char (rnd pos)) (random_chars rnd (S pos) len')
  end.

Definition getRandomString (env : Env) (len : nat) : M State string :=
  s ← m_get;
  _ ← m_modify (set_rng_pos (rng_pos s + len)%nat);
  mret (random_chars (arc4random env) (rng_pos s) len).

(** *** ensureCacheDirExists (lines 66-76) *)

Definition ensureCacheDirExists (path : string) : M State bool :=
  ok ← access_RWX path;
  if (ok : bool) then mret true
  else
    made ← mkdir path;
    if (made : bool) then mret true else mret false.

(** *** loadSOHelper (lines 81-137) *)

(** The name of the alias, given the random part. *)
Definition alias_name (cacheDir resName suffix : string) : string :=
  (cacheDir +:+ "/com.android.renderscript.cache/") +:+ "librs." +:+ resName
    +:+ "#" +:+ suffix +:+ ".so".

Definition loadSOHelper (env : Env) (origName cacheDir resName : string)
    : M State N :=
  found ← access_F_OK origName;
  if negb found then mret 0
  else
    s ← m_get;
    if bool_decide (origName ∉ LoadedLibraries s) then
      loaded ← dlopen origName;
      _ ← (if negb (loaded =? 0)
           then m_modify (fun s =>
                  set_LoadedLibraries ({[origName]} ∪ LoadedLibraries s) s)
           else mret tt);
      mret loaded
    else
      let newName := cacheDir +:+ "/com.android.renderscript.cache/" in
      ok ← ensureCacheDirExists newName;
      if negb ok then mret 0
      else
        suffix ← getRandomString env 6;
        let newName := newName +:+ "librs." +:+ resName +:+ "#" +:+ suffix
                         +:+ ".so" in
        linked ← symlink origName newName;
        if negb linked then mret 0
        else
          loaded ← dlopen newName;
          _ ← unlink newName;
          _ ← (if negb (loaded =? 0)
               then m_modify (fun s =>
                      set_LoadedLibraries ({[newName]} ∪ LoadedLibraries s) s)
               else mret tt);
          mret loaded.

(** *** loadSharedLibrary (lines 144-187), without RS_SERVER *)

(** [std::string::rfind]: where the last occurrence of [needle] starts. *)
Fixpoint rfind (needle hay : string) : option nat :=
  match hay with
  | EmptyString =>
      match needle with EmptyString => Some O | _ => None end
  | String _ rest =>
      match rfind needle rest with
      | Some k => Some (S k)
      | None => if String.prefix needle hay then Some O else None
      end
  end.

Definition loadSharedLibrary (env : Env) (cacheDir resName : string)
    : M State N :=
  let scriptSOName :=
    match rfind "cache" cacheDir with
    | Some cutPos => String.substring 0 cutPos cacheDir
    | None => cacheDir
    end +:+ "/lib/librs." +:+ resName +:+ ".so" in
  loaded ← loadSOHelper env scriptSOName cacheDir resName;
  if loaded =? 0 then
    let scriptSONameSystem := "/system/lib/librs." +:+ resName +:+ ".so" in
    loadSOHelper env scriptSONameSystem cacheDir resName
  else mret loaded.

(** *** Array storage *)

(** [new T[n]]: a fresh block of [n] cells. A [bool] cell holds 0 or 1.
    The cells of a new block are modelled as zeros; the code writes each
    cell before it reads it. *)
Definition new_array (n : N) : M State N :=
  s ← m_get;
  let a := next_addr s in
  _ ← m_modify (set_heap (<[a := replicate (N.to_nat n) 0]> (heap s)) (a + 1));
  _ ← emit (EvNew a n);
  mret a.

(** [delete[] p]: nothing for NULL; releasing a block that is not live is a
    fault. *)
Definition delete_array (p : N) : M State unit :=
  if p =? 0 then mret tt
  else
    s ← m_get;
    match heap s !! p with
    | Some _ =>
        _ ← m_modify (set_heap (delete p (heap s)) (next_addr s));
        emit (EvDelete p)
    | None => m_fault DoubleFree
    end.

(** [p[i] = v] *)
Definition store (p i v : N) : M State unit :=
  s ← m_get;
  match heap s !! p with
  | None => m_fault UseAfterFree
  | Some cells =>
      if N.to_nat i <? length cells
      then m_modify (set_heap (<[p := <[N.to_nat i := v]> cells]> (heap s))
                              (next_addr s))
      else m_fault OutOfBounds
  end%nat.

(** [p[i]] *)
Definition load (p i : N) : M State N :=
  s ← m_get;
  match heap s !! p with
  | None => m_fault UseAfterFree
  | Some cells =>
      match cells !! N.to_nat i with
      | Some v => mret v
      | None => m_fault OutOfBounds
      end
  end.

(** *** Reading the descriptor *)

Definition MAXLINE : nat := 500.

Definition newline : ascii := "010"%char.

(** The loop of [strgets] (lines 308-322), for at most [n] more characters:
    the characters copied and where the cursor is left. Copying the
    terminating NUL moves the cursor beyond it. *)
Fixpoint strgets_copy (n : nat) (rest : string) : string * cursor :=
  match n with
  | O => (EmptyString, At rest)
  | S n' =>
      match rest with
      | EmptyString => (EmptyString, PastEnd)
      | String c rest' =>
          if Ascii.eqb c newline then (String c EmptyString, At rest')
          else let '(l, cur) := strgets_copy n' rest' in (String c l, cur)
      end
  end.

(** [strgets(line, size, &rsInfo)] (lines 302-323): the line read, or
    [None] for the result NULL. A cursor beyond the end of the string reads
    outside it. *)
Definition strgets (size : nat) : M State (option string) :=
  s ← m_get;
  match rsInfo s with
  | Null => mret None
  | PastEnd => m_fault OutOfBounds
  | At rest =>
      match rest, size with
      | EmptyString, _ | _, O => mret None
      | _, S n =>
          let '(l, cur) := strgets_copy n rest in
          _ ← m_modify (set_rsInfo cur);
          mret (Some l)
      end
  end.

(** [char *c = strrchr(line, '\n'); if (c) *c = '\0';] *)
Fixpoint cut_last_newline (line : string) : option string :=
  match line with
  | EmptyString => None
  | String c rest =>
      match cut_last_newline rest with
      | Some rest' => Some (String c rest')
      | None => if Ascii.eqb c newline then Some EmptyString else None
      end
  end.

Definition strip_newline (line : string) : string :=
  default line (cut_last_newline line).

(** **** [sscanf], for the directives the descriptor is read with *)

Fixpoint skip_space (s : string) : string :=
  match s with
  | String c rest => if Ascii.is_space c then skip_space rest else s
  | EmptyString => s
  end.

(** The literal part of a format: a white-space character matches any
    amount of white space, any other character matches itself. The result
    is what is left of the input. *)
Fixpoint scan_literal (fmt input : string) : option string :=
  match fmt with
  | EmptyString => Some input
  | String f fmt' =>
      if Ascii.is_space f then scan_literal fmt' (skip_space input)
      else match input with
           | String c input' =>
               if Ascii.eqb c f then scan_literal fmt' input' else None
           | EmptyString => None
           end
  end.

Fixpoint scan_digits (acc : N) (s : string) : N * string :=
  match s with
  | String c rest =>
      match Ascii.is_nat c with
      | Some d => scan_digits (10 * acc + N.of_nat d) rest
      | None => (acc, s)
      end
  | EmptyString => (acc, s)
  end.

(** [%u] and [%zu]: white space, then one decimal digit or more. The value
    is stored in a 32-bit object. (A sign, which the C conversion allows,
    does not occur in a descriptor and is not accepted.) *)
Definition scan_unsigned (input : string) : option (N * string) :=
  match skip_space input with
  | String c rest =>
      match Ascii.is_nat c with
      | Some _ =>
          let '(v, rest') := scan_digits 0 (String c rest) in
          Some (v mod 2 ^ 32, rest')
      | None => None
      end
  | EmptyString => None
  end.

Fixpoint take_word (n : nat) (s : string) : string :=
  match n, s with
  | S n', String c rest =>
      if Ascii.is_space c then EmptyString else String c (take_word n' rest)
  | _, _ => EmptyString
  end.

(** [%500s]: white space, then up to 500 characters that are not. *)
Definition scan_word (width : nat) (input : string) : option string :=
  match take_word width (skip_space input) with
  | EmptyString => None
  | w => Some w
  end.

(** [sscanf(line, PREFIX "%zu", &n) == 1] *)
Definition sscanf_count (prefix line : string) : option N :=
  rest ← scan_literal prefix line;
  fst <$> scan_unsigned rest.

(** [sscanf(line, "%u - %500s", &tmpSig, tmpName) == 2] *)
Definition sscanf_foreach (line : string) : option (N * string) :=
  '(v, rest) ← scan_unsigned line;
  rest ← scan_literal " - " rest;
  name ← scan_word MAXLINE rest;
  Some (v, name).

(** [sscanf(line, "%u", &varNum) == 1] *)
Definition sscanf_u (line : string) : option N :=
  fst <$> scan_unsigned line.

Definition EXPORT_VAR_STR : string := "exportVarCount: ".
Definition EXPORT_FUNC_STR : string := "exportFuncCount: ".
Definition EXPORT_FOREACH_STR : string := "exportForEachCount: ".
Definition OBJECT_SLOT_STR : string := "objectSlotCount: ".

(** [strncat(tmpName, ".expand", MAXLINE-1-strlen(tmpName))] *)
Definition expand_name (tmpName : string) : string :=
  tmpName +:+ String.substring 0 (MAXLINE - 1 - String.length tmpName) ".expand".

(** *** The script object *)

Definition set_mScriptSO (v : N) (o : ScriptObj) : ScriptObj :=
  mkObj v (mRoot o) (mRootExpand o) (mInit o) (mFreeChildren o)
        (mInvokeFunctions o) (mForEachFunctions o) (mFieldAddress o)
        (mFieldIsObject o) (mForEachSignatures o) (mBoundAllocs o)
        (mExportedVariableCount o) (mExportedFunctionCount o).

(** Lines 490-505: the four optional entry points. *)
Definition set_entry_points (r re i fc : N) (o : ScriptObj) : ScriptObj :=
  mkObj (mScriptSO o) r re i fc (mInvokeFunctions o) (mForEachFunctions o)
        (mFieldAddress o) (mFieldIsObject o) (mForEachSignatures o)
        (mBoundAllocs o) (mExportedVariableCount o)
        (mExportedFunctionCount o).

Definition set_mInvokeFunctions (v : N) (o : ScriptObj) : ScriptObj :=
  mkObj (mScriptSO o) (mRoot o) (mRootExpand o) (mInit o) (mFreeChildren o)
        v (mForEachFunctions o) (mFieldAddress o) (mFieldIsObject o)
        (mForEachSignatures o) (mBoundAllocs o) (mExportedVariableCount o)
        (mExportedFunctionCount o).

Definition set_mForEachFunctions (v : N) (o : ScriptObj) : ScriptObj :=
  mkObj (mScriptSO o) (mRoot o) (mRootExpand o) (mInit o) (mFreeChildren o)
        (mInvokeFunctions o) v (mFieldAddress o) (mFieldIsObject o)
        (mForEachSignatures o) (mBoundAllocs o) (mExportedVariableCount o)
        (mExportedFunctionCount o).

Definition set_mFieldAddress (v : N) (o : ScriptObj) : ScriptObj :=
  mkObj (mScriptSO o) (mRoot o) (mRootExpand o) (mInit o) (mFreeChildren o)
        (mInvokeFunctions o) (mForEachFunctions o) v (mFieldIsObject o)
        (mForEachSignatures o) (mBoundAllocs o) (mExportedVariableCount o)
        (mExportedFunctionCount o).

Definition set_mFieldIsObject (v : N) (o : ScriptObj) : ScriptObj :=
  mkObj (mScriptSO o) (mRoot o) (mRootExpand o) (mInit o) (mFreeChildren o)
        (mInvokeFunctions o) (mForEachFunctions o) (mFieldAddress o) v
        (mForEachSignatures o) (mBoundAllocs o) (mExportedVariableCount o)
        (mExportedFunctionCount o).

Definition set_mForEachSignatures (v : N) (o : ScriptObj) : ScriptObj :=
  mkObj (mScriptSO o) (mRoot o) (mRootExpand o) (mInit o) (mFreeChildren o)
        (mInvokeFunctions o) (mForEachFunctions o) (mFieldAddress o)
        (mFieldIsObject o) v (mBoundAllocs o) (mExportedVariableCount o)
        (mExportedFunctionCount o).

Definition set_mBoundAllocs (v : N) (o : ScriptObj) : ScriptObj :=
  mkObj (mScriptSO o) (mRoot o) (mRootExpand o) (mInit o) (mFreeChildren o)
        (mInvokeFunctions o) (mForEachFunctions o) (mFieldAddress o)
        (mFieldIsObject o) (mForEachSignatures o) v
        (mExportedVariableCount o) (mExportedFunctionCount o).

Definition set_mExportedVariableCount (v : N) (o : ScriptObj) : ScriptObj :=
  mkObj (mScriptSO o) (mRoot o) (mRootExpand o) (mInit o) (mFreeChildren o)
        (mInvokeFunctions o) (mForEachFunctions o) (mFieldAddress o)
        (mFieldIsObject o) (mForEachSignatures o) (mBoundAllocs o) v
        (mExportedFunctionCount o).

Definition set_mExportedFunctionCount (v : N) (o : ScriptObj) : ScriptObj :=
  mkObj (mScriptSO o) (mRoot o) (mRootExpand o) (mInit o) (mFreeChildren o)
        (mInvokeFunctions o) (mForEachFunctions o) (mFieldAddress o)
        (mFieldIsObject o) (mForEachSignatures o) (mBoundAllocs o)
        (mExportedVariableCount o) v.

Definition upd_obj (f : ScriptObj -> ScriptObj) : M State unit :=
  m_modify (fun s => set_obj (f (obj s)) s).

(** The constructor (lines 326-352) sets every pointer to NULL; it leaves
    the two counts as they are. *)
Definition constructed (count1 count2 : N) : ScriptObj :=
  mkObj 0 0 0 0 0 0 0 0 0 0 0 count1 count2.

Definition rsAssert : Build -> bool -> string -> M State unit :=
  rsAssertWith (fun cond => add_event (EvAssertFailed cond)).

(** *** init, compatibility build (lines 355-361 and 486-701) *)

(** A step of [init] that can [goto error]: [None] is the jump. *)
Abbreviation G A := (M State (option A)).

Definition goto_error {A} : G A := mret None.

Definition proceed {A} (c : M State A) : G A := a ← c; mret (Some a).

Definition g_bind {A B} (c : G A) (k : A -> G B) : G B :=
  o ← c;
  match o with
  | Some a => k a
  | None => mret None
  end.

Notation "x ←? y ; z" := (g_bind y (fun x => z))
  (at level 20, y at level 100, z at level 200, only parsing).

(** [for (size_t i = i0; ...; ++i) body], for [n] more rounds. *)
Fixpoint for_each (n : nat) (i : N) (body : N -> G unit) : G unit :=
  match n with
  | O => mret (Some tt)
  | S n' => _ ←? body i; for_each n' (i + 1) body
  end.

(** Lines 512-554. *)
Definition load_variables (env : Env) (so varCount : N) : G unit :=
  _ ←? proceed (upd_obj (set_mExportedVariableCount varCount));
  if 0 <? varCount then
    p ←? proceed (new_array varCount);
    _ ←? proceed (upd_obj (set_mFieldIsObject p));
    q ←? proceed (new_array varCount);
    _ ←? proceed (upd_obj (set_mFieldAddress q));
    for_each (N.to_nat varCount) 0 (fun i =>
      line ←? strgets MAXLINE;
      s ←? proceed m_get;
      proceed (store (mFieldAddress (obj s)) i
                     (dlsym env so (strip_newline line))))
  else mret (Some tt).

(** Lines 556-592. *)
Definition load_functions (env : Env) (so funcCount : N) : G unit :=
  _ ←? proceed (upd_obj (set_mExportedFunctionCount funcCount));
  if 0 <? funcCount then
    p ←? proceed (new_array funcCount);
    _ ←? proceed (upd_obj (set_mInvokeFunctions p));
    for_each (N.to_nat funcCount) 0 (fun i =>
      line ←? strgets MAXLINE;
      s ←? proceed m_get;
      let fn := dlsym env so (strip_newline line) in
      _ ←? proceed (store (mInvokeFunctions (obj s)) i fn);
      if fn =? 0 then goto_error else mret (Some tt))
  else mret (Some tt).

(** Lines 613-641: one exported kernel. *)
Definition load_kernel (env : Env) (so i : N) : G unit :=
  line ←? strgets MAXLINE;
  scanned ←? mret (sscanf_foreach line);
  let tmpSig := fst scanned in
  let tmpName := expand_name (snd scanned) in
  s ←? proceed m_get;
  _ ←? proceed (store (mForEachSignatures (obj s)) i tmpSig);
  let fn := dlsym env so tmpName in
  _ ←? proceed (store (mForEachFunctions (obj s)) i fn);
  if negb (i =? 0) && (fn =? 0) then goto_error else mret (Some tt).

(** Lines 594-642. *)
Definition load_kernels (env : Env) (so forEachCount : N) : G unit :=
  if 0 <? forEachCount then
    p ←? proceed (new_array forEachCount);
    _ ←? proceed (upd_obj (set_mForEachSignatures p));
    q ←? proceed (new_array forEachCount);
    _ ←? proceed (upd_obj (set_mForEachFunctions q));
    for_each (N.to_nat forEachCount) 0 (load_kernel env so)
  else mret (Some tt).

(** Lines 656-668: one object-slot record. *)
Definition load_object_slot (varCount : N) : G unit :=
  line ←? strgets MAXLINE;
  varNum ←? mret (sscanf_u line);
  if varNum <? varCount then
    s ←? proceed m_get;
    proceed (store (mFieldIsObject (obj s)) varNum 1)
  else mret (Some tt).

(** Lines 644-669. *)
Definition load_object_slots (b : Build) (varCount objectSlotCount : N)
    : G unit :=
  if 0 <? objectSlotCount then
    _ ←? proceed (rsAssert b (0 <? varCount) "varCount > 0");
    for_each (N.to_nat objectSlotCount) 0 (fun _ => load_object_slot varCount)
  else mret (Some tt).

(** Lines 489-678: the work on a loaded object. *)
Definition load_symbols (b : Build) (env : Env) (so : N) : G unit :=
  _ ←? proceed (upd_obj (set_entry_points
                  (dlsym env so "root") (dlsym env so "root.expand")
                  (dlsym env so "init") (dlsym env so ".rs.dtor")));
  _ ←? proceed (m_modify (set_rsInfo (from_option At Null (rs_info env so))));
  line ←? strgets MAXLINE;
  varCount ←? mret (sscanf_count EXPORT_VAR_STR line);
  _ ←? load_variables env so varCount;
  line ←? strgets MAXLINE;
  funcCount ←? mret (sscanf_count EXPORT_FUNC_STR line);
  _ ←? load_functions env so funcCount;
  line ←? strgets MAXLINE;
  forEachCount ←? mret (sscanf_count EXPORT_FOREACH_STR line);
  _ ←? load_kernels env so forEachCount;
  line ←? strgets MAXLINE;
  objectSlotCount ←? mret (sscanf_count OBJECT_SLOT_STR line);
  _ ←? load_object_slots b varCount objectSlotCount;
  if 0 <? varCount then
    p ←? proceed (new_array varCount);
    proceed (upd_obj (set_mBoundAllocs p))
  else mret (Some tt).

(** Lines 688-700: the code at the label [error]. *)
Definition init_error : M State bool :=
  _ ← emit EvUnlock;
  s ← m_get;
  _ ← delete_array (mInvokeFunctions (obj s));
  _ ← delete_array (mForEachFunctions (obj s));
  _ ← delete_array (mFieldAddress (obj s));
  _ ← delete_array (mFieldIsObject (obj s));
  _ ← delete_array (mForEachSignatures (obj s));
  _ ← delete_array (mBoundAllocs (obj s));
  _ ← (if negb (mScriptSO (obj s) =? 0) then dlclose (mScriptSO (obj s))
       else mret tt);
  mret false.

Definition init (b : Build) (env : Env) (resName cacheDir : string)
    : M State bool :=
  _ ← emit EvLock;
  so ← loadSharedLibrary env cacheDir resName;
  _ ← upd_obj (set_mScriptSO so);
  r ← (if negb (so =? 0) then load_symbols b env so else goto_error);
  match r with
  | Some _ => _ ← emit EvUnlock; mret true
  | None => init_error
  end.

(** *** The destructor, compatibility build (lines 1080-1100) *)

Fixpoint for_loop (n : nat) (i : N) (body : N -> M State unit)
    : M State unit :=
  match n with
  | O => mret tt
  | S n' => _ ← body i; for_loop n' (i + 1) body
  end.

Definition destructor : M State unit :=
  s ← m_get;
  let o := obj s in
  _ ← (if negb (mFieldIsObject o =? 0) then
         for_loop (N.to_nat (mExportedVariableCount o)) 0 (fun i =>
           isObject ← load (mFieldIsObject o) i;
           if negb (isObject =? 0) then
             addr ← load (mFieldAddress o) i;
             if negb (addr =? 0) then emit (EvClearObject addr) else mret tt
           else mret tt)
       else mret tt);
  _ ← delete_array (mInvokeFunctions o);
  _ ← delete_array (mForEachFunctions o);
  _ ← delete_array (mFieldAddress o);
  _ ← delete_array (mFieldIsObject o);
  _ ← delete_array (mForEachSignatures o);
  _ ← delete_array (mBoundAllocs o);
  if negb (mScriptSO o =? 0) then dlclose (mScriptSO o) else mret tt.

End Loader.

(** * Vocabulary of the statements *)

Module LaunchSpec.
Import Launch.

(** The launch passes the validation of lines 751-773: a buffer is supplied,
    and no supplied buffer lacks its backing store. *)
Definition valid_buffers (a_in a_out : option Allocation) : Prop :=
  (is_Some a_in ∨ is_Some a_out) ∧
  unbacked a_in = false ∧ unbacked a_out = false.

(** The buffer the dimensions are taken from: the input when there is one. *)
Definition governing (a_in a_out : option Allocation) : option Allocation :=
  match a_in with
  | Some a => Some a
  | None => a_out
  end.

(** No restriction: [sc] is NULL or its three end fields are zero. *)
Definition no_subregion (sc : option RsScriptCall) : Prop :=
  match sc with
  | None => True
  | Some c => sc_xEnd c = 0 ∧ sc_yEnd c = 0 ∧ sc_zEnd c = 0
  end.

Definition is_error (e : event) : bool :=
  match e with EvSetError _ _ => true | _ => false end.

Definition is_kernel_call (e : event) : bool :=
  match e with EvNativeCall _ _ => true | _ => false end.

Definition is_assert_failure (e : event) : bool :=
  match e with EvAssertFailed _ => true | _ => false end.

(** The errors reported to the context, and the entries into script code. *)
Definition errors (evs : list event) : list event := List.filter is_error evs.
Definition kernel_calls (evs : list event) : list event :=
  List.filter is_kernel_call evs.
Definition assert_failures (evs : list event) : list event :=
  List.filter is_assert_failure evs.

(** The iteration domain of a descriptor: start and end on each axis. *)
Definition domain (m : MTLaunchStruct) : (N * N) * (N * N) * (N * N) :=
  ((xStart m, xEnd m), (yStart m, yEnd m), (zStart m, zEnd m)).

Definition with_mtls (f : MTLaunchStruct -> MTLaunchStruct) (st : State)
    : State :=
  mkState (f (mtls st)) (tls st) (events st).

(** [rsMin] of the extent with each end of a restriction. *)
Definition clamped_axis (d s e : N) : N * N := (N.min d s, N.min d e).

(** A well-formed restriction of one axis: none ([e = 0]), or
    [start < end <= extent]. *)
Definition axis_ok (d s e : N) : Prop := e = 0 ∨ (s < e ∧ e <= d).

(** A restricted axis that is empty once clamped. *)
Definition axis_empty (d s e : N) : Prop :=
  e ≠ 0 ∧ snd (clamped_axis d s e) <= fst (clamped_axis d s e).

(** The bounds of an axis of extent [d]: the whole extent, at least one
    step, when unrestricted; the clamped restriction otherwise. *)
Definition expected_axis (d s e : N) : N * N :=
  if e =? 0 then (0, N.max d 1) else clamped_axis d s e.

Definition subregion_ok (g : Allocation) (c : RsScriptCall) : Prop :=
  axis_ok (getDimX g) (sc_xStart c) (sc_xEnd c) ∧
  axis_ok (getDimY g) (sc_yStart c) (sc_yEnd c) ∧
  axis_ok (getDimZ g) (sc_zStart c) (sc_zEnd c).

Definition subregion_empty (g : Allocation) (c : RsScriptCall) : Prop :=
  axis_empty (getDimX g) (sc_xStart c) (sc_xEnd c) ∨
  axis_empty (getDimY g) (sc_yStart c) (sc_yEnd c) ∨
  axis_empty (getDimZ g) (sc_zStart c) (sc_zEnd c).

(** *** Sample inputs *)

Definition sample_script : ScriptImpl :=
  mkScriptImpl 100 200 true 11 12 13 [21; 22] [0; 32] [1; 2].

Definition sample_state : State := mkState mtls_zero 7 [].

(** Non-fatal assertions, compatibility library. *)
Definition build_compat : Build := mkBuild true false.

(** Fatal assertions, full build. *)
Definition build_full_fatal : Build := mkBuild false true.

(** A 16 x 4 buffer of 4-byte elements. *)
Definition sample_alloc : Allocation := mkAllocation 4096 64 16 4 0 4.

(** A supplied buffer with no backing store. *)
Definition unbacked_alloc : Allocation := mkAllocation 0 0 16 4 0 4.

(** Script code that leaves the thread-local pointer alone. *)
Definition quiet_native : Native := fun _ t => (t, 0%Z).

(** Script code that leaves 55 in the thread-local pointer and returns 3. *)
Definition noisy_native : Native := fun _ _ => (55, 3%Z).

(** Columns 2 to 9 of rows 1 to 2. *)
Definition sample_window : RsScriptCall := mkScriptCall 2 10 1 3 0 0.

(** A window whose x range is reversed. *)
Definition reversed_window : RsScriptCall := mkScriptCall 5 3 0 0 0 0.

End LaunchSpec.

Module VarsSpec.
Import Vars.

(** The objects referred to by [n] consecutive elements from [p] on, in the
    order the loops of lines 974-984 visit them. *)
Fixpoint refs_of (elem : Element) (m : gmap N N) (n : nat) (p stride : N)
    : list N :=
  match n with
  | O => []
  | S n' => element_refs elem m p ++ refs_of elem m n' (p + stride) stride
  end.

(** Every reference of an element lies inside the element. *)
Definition wf_element (elem : Element) : Prop :=
  Forall (fun off => off + sizeof_ptr <= getSizeBytes elem) (refOffsets elem).

(** The [len] bytes at [a] and at [b] are the same. *)
Definition same_bytes (m : gmap N N) (a b len : N) : Prop :=
  ∀ k, k < len -> load_byte m (a + k) = load_byte m (b + k).

(** Taking, respectively dropping, one reference of each object of a list. *)
Definition inc_all (r : gmap N positive) (l : list N) : gmap N positive :=
  foldl (fun r h => incSysRef h r) r l.
Definition dec_all (r : gmap N positive) (l : list N) : gmap N positive :=
  foldl (fun r h => decSysRef h r) r l.

Definition is_assert_failure (e : event) : bool :=
  match e with EvAssertFailed _ => true | _ => false end.

(** *** Sample inputs *)

(** An element of 8 bytes whose second word is an object reference. *)
Definition sample_elem : Element := mkElement 8 [4].

(** Two elements at address 64 (the incoming data) referring to the objects
    at 200 and 208, and two at address 128 (the variable) referring to the
    objects at 216 and 200. *)
Definition sample_mem : gmap N N :=
  <[68 := 200]> (<[76 := 208]> (<[132 := 216]> (<[140 := 200]> ∅))).

Definition sample_refs : gmap N positive :=
  <[200 := 2%positive]> (<[208 := 1%positive]> (<[216 := 1%positive]> ∅)).

Definition sample_state : State := mkState sample_mem sample_refs [].

(** The variable of slot 0 has been optimized away; slot 1 is at 128. *)
Definition sample_fields : list N := [0; 128].

(** Non-fatal assertions, and fatal ones. *)
Definition build_compat_vars : Build := mkBuild true false.
Definition build_fatal_vars : Build := mkBuild true true.

End VarsSpec.

Module LoaderSpec.
Import Loader.

(** The characters [getRandomString] draws from: [A-Za-z0-9]. *)
Definition alnum (c : ascii) : bool :=
  let n := N_of_ascii c in
  ((97 <=? n) && (n <=? 122)) || ((65 <=? n) && (n <=? 90)) ||
  ((48 <=? n) && (n <=? 57)).

(** The random number generator that yields the values of [ds], in order. *)
Definition draws (ds : list N) : nat -> N := fun i => nth i ds 0.

(** The character lines 51-60 choose for the reduced value [r]. *)
Definition char_of_residue (r : N) : ascii :=
  if r <? 26 then ascii_of_N (97 + r)
  else if r <? 52 then ascii_of_N (65 + (r - 26))
  else ascii_of_N (48 + (r - 52)).

(** The suffix made from the reduced values [rs]. *)
Definition suffix_of (rs : list N) : string :=
  String.string_of_list_ascii (map char_of_residue rs).

(** *** Assertions about runs *)

(** [c], run from a state that satisfies [P], either faults or returns a
    value and a state that satisfy [Q]. *)
Definition triple {A} (P : State -> Prop) (c : M State A)
    (Q : A -> State -> Prop) : Prop :=
  ∀ s, P s -> match c s with
              | (Done a, s') => Q a s'
              | (Fault _, _) => True
              end.

(** For a step that can jump to [error]: [Q] on falling through, [E] on the
    jump. *)
Definition gpost {A} (Q : A -> State -> Prop) (E : State -> Prop)
    (o : option A) (s : State) : Prop :=
  match o with
  | Some a => Q a s
  | None => E s
  end.

(** What the heap-related reasoning looks at: the members, the blocks and
    the allocation pointer. *)
Definition core (s : State) : ScriptObj * gmap N (list N) * N :=
  (obj s, heap s, next_addr s).

Definition keeps_core {A} (c : M State A) : Prop :=
  ∀ s, core (snd (c s)) = core s.

(** Before the kernels are read: the object-flag array, if any, was
    allocated earlier, and there is no kernel table yet. *)
Definition before_kernels (s : State) : Prop :=
  mFieldIsObject (obj s) < next_addr s ∧ mForEachFunctions (obj s) = 0.

(** While the [n] kernels are read, before the one of slot [i]: the kernel
    table is a live block of [n] cells, other than the signature table and
    the object-flag array, and its cells 1 to [i - 1] hold an address. *)
Definition kernel_loop (n : nat) (i : N) (s : State) : Prop :=
  let q := mForEachFunctions (obj s) in
  q ≠ mFieldIsObject (obj s) ∧ q ≠ mForEachSignatures (obj s) ∧
  q < next_addr s ∧
  ∃ fns, heap s !! q = Some fns ∧ length fns = n ∧
         ∀ j, (0 < j < N.to_nat i)%nat -> fns !! j ≠ Some 0.

(** After the kernels are read: no kernel table, or a live block, other
    than the object-flag array, all of whose cells but the first hold an
    address. *)
Definition after_kernels (s : State) : Prop :=
  let q := mForEachFunctions (obj s) in
  q = 0 ∨
  (q ≠ mFieldIsObject (obj s) ∧ q < next_addr s ∧
   ∃ fns, heap s !! q = Some fns ∧ ∀ j, (0 < j)%nat -> fns !! j ≠ Some 0).

(** The six array members. *)
Definition array_members (o : ScriptObj) : list N :=
  [mInvokeFunctions o; mForEachFunctions o; mFieldAddress o;
   mFieldIsObject o; mForEachSignatures o; mBoundAllocs o].

(** The members are [o], and the addresses [ps] that are not NULL name no
    live block. *)
Definition released (o : ScriptObj) (ps : list N) (s : State) : Prop :=
  obj s = o ∧ ∀ p, p ∈ ps -> p ≠ 0 -> heap s !! p = None.

(** Nothing is claimed after a jump to [error]. *)
Definition any_state (s : State) : Prop := True.

(** The kernel table a load leaves: none, or a live block all of whose
    cells but the first hold an address. *)
Definition kernels_resolved (s : State) : Prop :=
  mForEachFunctions (obj s) = 0 ∨
  ∃ fns, heap s !! mForEachFunctions (obj s) = Some fns ∧
         ∀ j, (0 < j)%nat -> fns !! j ≠ Some 0.

(** *** Sample inputs *)

Definition unlines (ls : list string) : string :=
  foldr (fun l acc => l +:+ String newline acc) EmptyString ls.

(** A descriptor with two variables, the second an object; one function;
    the root kernel and one more; and an object-slot record, 7, that names
    no variable. *)
Definition sample_info : string :=
  unlines ["exportVarCount: 2"; "x"; "y";
           "exportFuncCount: 1"; "f";
           "exportForEachCount: 2"; "0 - root"; "1 - kern";
           "objectSlotCount: 2"; "1"; "7"].

(** The symbols of the sample object: there is no [root.expand]. *)
Definition sample_dlsym (h : N) (name : string) : N :=
  if String.eqb name "x" then 1000
  else if String.eqb name "f" then 2000
  else if String.eqb name "kern.expand" then 3000
  else if String.eqb name "root" then 4000
  else 0.

Definition sample_env : Env :=
  mkEnv (fun n => N.of_nat n * 7 + 3) sample_dlsym (fun _ => Some sample_info).

Definition sample_lib : string := "/data/app//lib/librs.foo.so".

Definition sample_fs : gmap string node :=
  <[sample_lib := Lib]> (<["/data/app/cache" := Dir true]> ∅).

(** A process that has loaded nothing, and a just constructed script. *)
Definition sample_fresh : State :=
  mkState sample_fs ∅ ∅ ∅ 0 ∅ 1 (constructed 0 0) Null [].

(** The same once the sample object has been loaded. *)
Definition sample_loaded : State :=
  mkState sample_fs {[sample_lib]} {[sample_lib := 1]} {[1 := 1%nat]} 0 ∅ 1
          (constructed 0 0) Null [].

Definition build_compat : Build := mkBuild true false.

(** The sample object without the symbol [kern.expand]. *)
Definition sample_env_unresolved : Env :=
  mkEnv (arc4random sample_env)
        (fun h name => if String.eqb name "kern.expand" then 0
                       else sample_dlsym h name)
        (rs_info sample_env).

(** The sample object with a descriptor that ends after the name of its
    only variable. *)
Definition sample_env_truncated : Env :=
  mkEnv (arc4random sample_env) sample_dlsym
        (fun _ => Some (unlines ["exportVarCount: 1"; "x"])).

(** The sample object with an empty descriptor. *)
Definition sample_env_empty : Env :=
  mkEnv (arc4random sample_env) sample_dlsym (fun _ => Some EmptyString).

(** A load in progress: two variables, the object-flag array at address 1
    with the flag of variable 1 set, and the descriptor at the record 7. *)
Definition sample_at_record : State :=
  mkState ∅ ∅ ∅ ∅ 0 {[1 := [0; 1]]} 2
          (set_mFieldIsObject 1 (constructed 2 0)) (At (unlines ["7"])) [].

End LoaderSpec.

(** * The monad *)

Lemma bind_run {S A B} (c : M S A) (k : A -> M S B) (s : S) :
  (c ≫= k) s = match c s with
               | (Done a, s') => k a s'
               | (Fault f, s') => (Fault f, s')
               end.
Proof. reflexivity. Qed.


(** * Properties of the launch set-up *)

Section LaunchFacts.
Import Launch LaunchSpec.

Ltac mrun :=
  cbv [mbind mret M_bind M_ret m_bind m_ret m_get m_modify m_fault
       upd_mtls emit setError setTLS rsAssert rsAssertWith restrict_axis
       index]; cbn.

Lemma errors_app (l1 l2 : list event) :
  errors (l1 ++ l2) = errors l1 ++ errors l2.
Proof. apply List.filter_app. Qed.

Lemma kernel_calls_app (l1 l2 : list event) :
  kernel_calls (l1 ++ l2) = kernel_calls l1 ++ kernel_calls l2.
Proof. apply List.filter_app. Qed.

(** What one axis block does, in full. *)
Lemma restrict_axis_cases (b : Build) (sc : option RsScriptCall)
    (dim : RsForEachStubParamStruct -> N) (s e : RsScriptCall -> N)
    (ss se : N -> MTLaunchStruct -> MTLaunchStruct) (ax : string) (st : State) :
  let d := dim (fep (mtls st)) in
  let r := restrict_axis b sc dim s e ss se ax st in
  (unrestricted sc e = true ∧ r = (Done true, with_mtls (se d) st)) ∨
  (∃ c, sc = Some c ∧ e c ≠ 0 ∧ tls (snd r) = tls st ∧
     ∃ evs, events (snd r) = events st ++ evs ∧
            assert_failures evs = evs ∧
            (s c < e c ∧ e c <= d ↔ evs = []) ∧
     ((fst r = Fault AssertAbort ∧ rsAssert_fatal b = true ∧
       evs ≠ [] ∧ mtls (snd r) = mtls st) ∨
      (fst r = Done (negb (N.min d (e c) <=? N.min d (s c))) ∧
       mtls (snd r) = se (N.min d (e c)) (ss (N.min d (s c)) (mtls st))))).
Proof.
  intros d r. subst r. destruct sc as [c|]; [|left; split; [done|]; by mrun].
  destruct (N.eqb_spec (e c) 0) as [He|He].
  - left. split; [simpl; by apply N.eqb_eq|]. mrun. fold d.
    destruct (e c =? 0) eqn:E; [done|]. apply N.eqb_neq in E. done.
  - right. exists c. split; [done|]. split; [done|].
    mrun. fold d. destruct (e c =? 0) eqn:E; [apply N.eqb_eq in E; done|].
    destruct (N.ltb_spec (s c) d), (N.leb_spec (e c) d),
      (N.ltb_spec (s c) (e c)), (rsAssert_fatal b); cbn;
      (split; [done|]); eexists;
      (split; [try (symmetry; apply app_nil_r);
               try reflexivity; rewrite <- ?app_assoc; reflexivity|]);
      (split; [done|]);
      (split; [split; [intros; try done; lia|intros; try done; lia]|]);
      first [ left; repeat split; done | right; repeat split; done ].
Qed.

Lemma restrict_axis_unres (b : Build) (sc : option RsScriptCall)
    (dim : RsForEachStubParamStruct -> N) (s e : RsScriptCall -> N)
    (ss se : N -> MTLaunchStruct -> MTLaunchStruct) (ax : string) (st : State) :
  unrestricted sc e = true ->
  restrict_axis b sc dim s e ss se ax st =
    (Done true, with_mtls (se (dim (fep (mtls st)))) st).
Proof.
  intros Hu.
  destruct (restrict_axis_cases b sc dim s e ss se ax st)
    as [[_ H]|(c & -> & Hne & _)]; [exact H|].
  simpl in Hu. apply N.eqb_eq in Hu. done.
Qed.

Lemma restrict_axis_in_range (b : Build) (c : RsScriptCall)
    (dim : RsForEachStubParamStruct -> N) (s e : RsScriptCall -> N)
    (ss se : N -> MTLaunchStruct -> MTLaunchStruct) (ax : string) (st : State) :
  e c ≠ 0 -> s c < e c -> e c <= dim (fep (mtls st)) ->
  restrict_axis b (Some c) dim s e ss se ax st =
    (Done true,
     with_mtls (λ m, se (N.min (dim (fep m)) (e c))
                        (ss (N.min (dim (fep m)) (s c)) m)) st).
Proof.
  intros Hne Hlt Hle.
  destruct (restrict_axis_cases b (Some c) dim s e ss se ax st)
    as [[Hu _]|(c' & [= <-] & _ & Ht & evs & Hev & _ & Hnil & H)].
  { simpl in Hu. apply N.eqb_eq in Hu. done. }
  apply proj1 in Hnil. specialize (Hnil (conj Hlt Hle)).
  destruct H as [(_ & _ & Hn & _)|(Hf & Hm)]; [done|].
  rewrite Hnil, app_nil_r in Hev.
  destruct (restrict_axis _ _ _ _ _ _ _ _ _) as [o [m1 t1 e1]].
  simpl in *. subst. unfold with_mtls. simpl. f_equal.
  f_equal. f_equal. apply negb_true_iff, N.leb_gt. lia.
Qed.

Lemma governing_dims (b : Build) (self : ScriptImpl)
    (a_in a_out : option Allocation) (usr_ usrLen_ : N)
    (sc : option RsScriptCall) (g : Allocation) (st : State) :
  valid_buffers a_in a_out ->
  governing a_in a_out = Some g ->
  forEachMtlsSetup b self a_in a_out usr_ usrLen_ sc st =
  forEachMtlsSetup_domain b self a_in a_out usr_ usrLen_ sc
    (with_mtls (λ _, set_dims (getDimX g) (getDimY g) (getDimZ g) mtls_zero)
               st).
Proof.
  intros (_ & Hin & Hout) Hg. unfold forEachMtlsSetup.
  rewrite bind_run. cbn. rewrite Hin, Hout.
  destruct a_in as [a|]; simpl in Hg.
  - injection Hg as ->. reflexivity.
  - subst a_out. reflexivity.
Qed.

(** C1. When the launch passes validation (a buffer is supplied and no
    supplied buffer lacks backing storage) and no sub-region is given ([sc]
    is NULL or its end fields are zero), [forEachMtlsSetup] leaves in the
    descriptor the start bounds 0 and the end bounds [max(X,1)],
    [max(Y,1)], [max(Z,1)], for the extents [(X,Y,Z)] of the input buffer
    when there is one and of the output buffer otherwise, and reports no
    error. It runs to its end, unless assertions are fatal and the input
    buffer has a Z extent, which line 813 asserts against. *)
Theorem C1_unrestricted_domain
    (b : Build) (self : ScriptImpl) (a_in a_out : option Allocation)
    (usr_ usrLen_ : N) (sc : option RsScriptCall) (g : Allocation)
    (st : State) :
  valid_buffers a_in a_out ->
  governing a_in a_out = Some g ->
  no_subregion sc ->
  let r := forEachMtlsSetup b self a_in a_out usr_ usrLen_ sc st in
  domain (mtls (snd r)) =
    ((0, N.max (getDimX g) 1), (0, N.max (getDimY g) 1),
     (0, N.max (getDimZ g) 1)) ∧
  errors (events (snd r)) = errors (events st) ∧
  (fst r = Done tt ∨
   (rsAssert_fatal b = true ∧ ∃ a, a_in = Some a ∧ getDimZ a ≠ 0)).
Proof.
  intros Hv Hg Hsc r. subst r.
  rewrite (governing_dims _ _ _ _ _ _ _ g) by done.
  assert (Hx : unrestricted sc sc_xEnd = true ∧
               unrestricted sc sc_yEnd = true ∧
               unrestricted sc sc_zEnd = true).
  { destruct sc as [c|]; simpl in *; [|done].
    destruct Hsc as (-> & -> & ->). done. }
  destruct Hx as (Hx & Hy & Hz).
  unfold forEachMtlsSetup_domain.
  rewrite bind_run, restrict_axis_unres by done. cbn [negb].
  rewrite bind_run, restrict_axis_unres by done. cbn [negb].
  rewrite bind_run, restrict_axis_unres by done. cbn [negb].
  destruct st as [m0 t0 e0].
  rewrite !(N.max_comm _ 1).
  destruct a_in as [a|]; simpl in Hg.
  - injection Hg as ->.
    destruct (N.eqb_spec (getDimZ g) 0) as [E|E], (rsAssert_fatal b) eqn:F;
      mrun; rewrite ?E, ?F; cbn.
    1,2,4: (split; [done|]); split;
           [by rewrite ?errors_app, ?app_nil_r|by left].
    split; [done|]. split; [by rewrite ?errors_app, ?app_nil_r|].
    right. split; [done|]. by exists g.
  - mrun. split; [done|]. split; [done|]. by left.
Qed.

(** [forEachKernelSetup] leaves the bounds, the thread-local pointer and the
    reports alone; it can record failed assertions. *)
Lemma forEachKernelSetup_frame (b : Build) (self : ScriptImpl) (slot_ : N)
    (st : State) :
  let r := forEachKernelSetup b self slot_ st in
  domain (mtls (snd r)) = domain (mtls st) ∧
  arrayStart (mtls (snd r)) = arrayStart (mtls st) ∧
  arrayEnd (mtls (snd r)) = arrayEnd (mtls st) ∧
  tls (snd r) = tls st ∧
  errors (events (snd r)) = errors (events st) ∧
  kernel_calls (events (snd r)) = kernel_calls (events st).
Proof.
  destruct st as [m0 t0 e0]. unfold forEachKernelSetup. mrun.
  repeat match goal with
         | |- context [if ?c then _ else _] => destruct c eqn:?; cbn
         | |- context [match ?l !! ?i with _ => _ end] =>
             destruct (l !! i) eqn:?; cbn
         end;
    rewrite ?errors_app, ?kernel_calls_app; cbn; rewrite ?app_nil_r; done.
Qed.

Lemma slices_no_array (m : MTLaunchStruct) :
  arrayStart m = 0 -> arrayEnd m = 0 -> slices m = [].
Proof. intros H1 H2. unfold slices. rewrite H1, H2. reflexivity. Qed.

Lemma assert_failures_app (l1 l2 : list event) :
  assert_failures (l1 ++ l2) = assert_failures l1 ++ assert_failures l2.
Proof. apply List.filter_app. Qed.

Lemma only_asserts (evs : list event) :
  assert_failures evs = evs -> errors evs = [] ∧ kernel_calls evs = [].
Proof.
  induction evs as [|e evs IH]; [done|].
  destruct e; cbn; intros H.
  - exfalso. assert (Hl : length (assert_failures evs) = S (length evs))
      by (unfold assert_failures; rewrite H; done).
    pose proof (List.filter_length_le is_assert_failure evs).
    unfold assert_failures in Hl. lia.
  - injection H as H. apply IH in H. done.
  - exfalso. assert (Hl : length (assert_failures evs) = S (length evs))
      by (unfold assert_failures; rewrite H; done).
    pose proof (List.filter_length_le is_assert_failure evs).
    unfold assert_failures in Hl. lia.
Qed.

(** One axis block, as a step: it only records failed assertions, it keeps
    every property of the descriptor that the two bound setters keep, it
    stops the set-up whenever the restricted axis is empty, and it never
    stops it without a failed assertion. *)
Lemma restrict_axis_step (b : Build) (sc : option RsScriptCall)
    (dim : RsForEachStubParamStruct -> N) (s e : RsScriptCall -> N)
    (ss se : N -> MTLaunchStruct -> MTLaunchStruct) (ax : string)
    (P : MTLaunchStruct -> Prop) (st : State) :
  (∀ v m, P m -> P (ss v m)) -> (∀ v m, P m -> P (se v m)) ->
  P (mtls st) ->
  let d := dim (fep (mtls st)) in
  let r := restrict_axis b sc dim s e ss se ax st in
  P (mtls (snd r)) ∧ tls (snd r) = tls st ∧
  ∃ evs, events (snd r) = events st ++ evs ∧ assert_failures evs = evs ∧
    (fst r = Done true ∨ (fst r = Done false ∧ evs ≠ []) ∨
     (fst r = Fault AssertAbort ∧ rsAssert_fatal b = true ∧ evs ≠ [])) ∧
    (∀ c, sc = Some c -> axis_empty d (s c) (e c) -> fst r ≠ Done true).
Proof.
  intros Hss Hse HP d r. subst r.
  destruct (restrict_axis_cases b sc dim s e ss se ax st)
    as [[Hu ->]|(c & -> & Hne & Ht & evs & Hev & Ha & Hnil & H)].
  - cbn. split; [by apply Hse|]. split; [done|]. exists [].
    rewrite app_nil_r. repeat split; try done; [by left|].
    intros c -> [Hne _]. simpl in Hu. apply N.eqb_eq in Hu. done.
  - fold d in H, Hnil.
    destruct H as [(Hf & Hfat & Hevs & Hm)|(Hf & Hm)].
    + rewrite Hm. split; [done|]. split; [done|]. exists evs.
      repeat split; try done; [by right; right|].
      intros _ _ _. rewrite Hf. done.
    + rewrite Hm. split; [by apply Hse, Hss|]. split; [done|]. exists evs.
      split; [done|]. split; [done|]. rewrite Hf. split.
      * destruct (N.leb_spec (N.min d (e c)) (N.min d (s c))) as [Hle|Hlt];
          cbn; [right; left|by left].
        split; [done|]. intros Hn. apply Hnil in Hn. lia.
      * intros c' [= <-] [_ Hemp]. unfold clamped_axis in Hemp. simpl in Hemp.
        apply N.leb_le in Hemp. fold d. rewrite Hemp. done.
Qed.


(** A restricted axis that is empty after clamping ends the set-up before
    the end bounds are raised: the array bounds keep the zeros of the
    [memset], so the descriptor has no slice. A failed assertion is always
    recorded on the way; the context is told of no error. *)
Lemma forEachMtlsSetup_domain_empty (b : Build) (self : ScriptImpl)
    (a_in a_out : option Allocation) (usr_ usrLen_ : N) (c : RsScriptCall)
    (g : Allocation) (st : State) :
  dimX (fep (mtls st)) = getDimX g ->
  dimY (fep (mtls st)) = getDimY g ->
  dimZ (fep (mtls st)) = getDimZ g ->
  arrayStart (mtls st) = 0 -> arrayEnd (mtls st) = 0 ->
  subregion_empty g c ->
  let r := forEachMtlsSetup_domain b self a_in a_out usr_ usrLen_ (Some c) st in
  arrayStart (mtls (snd r)) = 0 ∧ arrayEnd (mtls (snd r)) = 0 ∧
  tls (snd r) = tls st ∧
  (∃ evs, events (snd r) = events st ++ evs ∧ assert_failures evs = evs ∧
          evs ≠ []) ∧
  (fst r = Done tt ∨ (fst r = Fault AssertAbort ∧ rsAssert_fatal b = true)).
Proof.
  intros HX HY HZ Has Hae Hemp.
  set (P := λ m : MTLaunchStruct,
         arrayStart m = 0 ∧ arrayEnd m = 0 ∧ fep m = fep (mtls st)).
  assert (HP0 : P (mtls st)) by done.
  unfold forEachMtlsSetup_domain.
  rewrite bind_run.
  destruct (restrict_axis_step b (Some c) dimX sc_xStart sc_xEnd
              set_xStart set_xEnd "x" P st)
    as ((Ha1 & Hb1 & Hf1) & Ht1 & ev1 & He1 & Hs1 & Ho1 & Hn1); try done.
  destruct (restrict_axis _ _ dimX _ _ _ _ _ _) as [o1 st1]. simpl in *.
  destruct Ho1 as [->|[[-> Hne]|(-> & Hfat & Hne)]]; cbn.
  2,3: repeat split; eauto.
  rewrite bind_run.
  destruct (restrict_axis_step b (Some c) dimY sc_yStart sc_yEnd
              set_yStart set_yEnd "y" P st1)
    as ((Ha2 & Hb2 & Hf2) & Ht2 & ev2 & He2 & Hs2 & Ho2 & Hn2); try done.
  destruct (restrict_axis _ _ dimY _ _ _ _ _ _) as [o2 st2]. simpl in *.
  assert (Hev12 : assert_failures (ev1 ++ ev2) = ev1 ++ ev2)
    by (rewrite assert_failures_app; congruence).
  destruct Ho2 as [->|[[-> Hne]|(-> & Hfat & Hne)]]; cbn.
  2,3: repeat split; try congruence; eauto;
       exists (ev1 ++ ev2); rewrite He2, He1, <- app_assoc;
       (repeat split; [done|]); by destruct ev1, ev2.
  rewrite bind_run.
  destruct (restrict_axis_step b (Some c) dimZ sc_zStart sc_zEnd
              set_zStart set_zEnd "z" P st2)
    as ((Ha3 & Hb3 & Hf3) & Ht3 & ev3 & He3 & Hs3 & Ho3 & Hn3); try done.
  destruct (restrict_axis _ _ dimZ _ _ _ _ _ _) as [o3 st3]. simpl in *.
  destruct Ho3 as [->|[[-> Hne]|(-> & Hfat & Hne)]]; cbn.
  2,3: repeat split; try congruence; eauto;
       exists (ev1 ++ ev2 ++ ev3); rewrite He3, He2, He1, <- !app_assoc;
       (split; [done|]);
       (split; [rewrite !assert_failures_app; congruence|]);
       by destruct ev1, ev2, ev3.
  exfalso. rewrite Hf2 in Hn3. rewrite Hf1 in Hn2.
  rewrite HX in Hn1. rewrite HY in Hn2. rewrite HZ in Hn3.
  destruct Hemp as [H|[H|H]];
    [eapply Hn1|eapply Hn2|eapply Hn3]; done.
Qed.

Lemma restrict_axis_ok (b : Build) (c : RsScriptCall)
    (dim : RsForEachStubParamStruct -> N) (s e : RsScriptCall -> N)
    (ss se : N -> MTLaunchStruct -> MTLaunchStruct) (ax : string) (st : State) :
  axis_ok (dim (fep (mtls st))) (s c) (e c) ->
  restrict_axis b (Some c) dim s e ss se ax st =
    (Done true,
     with_mtls (λ m, if e c =? 0 then se (dim (fep m)) m
                     else se (N.min (dim (fep m)) (e c))
                             (ss (N.min (dim (fep m)) (s c)) m)) st).
Proof.
  intros [H0|[Hlt Hle]].
  - rewrite restrict_axis_unres by (simpl; by apply N.eqb_eq).
    unfold with_mtls. apply N.eqb_eq in H0. by rewrite H0.
  - rewrite restrict_axis_in_range by (try done; lia).
    unfold with_mtls. destruct (N.eqb_spec (e c) 0); [lia|done].
Qed.

Lemma forEachMtlsSetup_ok (b : Build) (self : ScriptImpl)
    (a_in a_out : option Allocation) (usr_ usrLen_ : N) (c : RsScriptCall)
    (g : Allocation) (st : State) :
  valid_buffers a_in a_out ->
  governing a_in a_out = Some g ->
  subregion_ok g c ->
  let r := forEachMtlsSetup b self a_in a_out usr_ usrLen_ (Some c) st in
  domain (mtls (snd r)) =
    (expected_axis (getDimX g) (sc_xStart c) (sc_xEnd c),
     expected_axis (getDimY g) (sc_yStart c) (sc_yEnd c),
     expected_axis (getDimZ g) (sc_zStart c) (sc_zEnd c)) ∧
  errors (events (snd r)) = errors (events st) ∧
  (fst r = Done tt ∨
   (rsAssert_fatal b = true ∧ ∃ a, a_in = Some a ∧ getDimZ a ≠ 0)).
Proof.
  intros Hv Hg (Hx & Hy & Hz) r. subst r.
  rewrite (governing_dims _ _ _ _ _ _ _ g) by done.
  unfold forEachMtlsSetup_domain.
  rewrite bind_run, restrict_axis_ok by done. cbn [negb].
  rewrite bind_run, restrict_axis_ok
    by (by destruct (sc_xEnd c =? 0)). cbn [negb].
  rewrite bind_run, restrict_axis_ok
    by (by destruct (sc_xEnd c =? 0), (sc_yEnd c =? 0)). cbn [negb].
  assert (Hd : ∀ d s e, axis_ok d s e ->
            (if e =? 0 then (0, N.max 1 d)
             else (N.min d s, N.max 1 (N.min d e))) = expected_axis d s e).
  { intros d s e [->|[H1 H2]]; unfold expected_axis, clamped_axis.
    - simpl. by rewrite N.max_comm.
    - destruct (N.eqb_spec e 0); [lia|]. f_equal. lia. }
  rewrite <- !Hd by done. clear Hd Hx Hy Hz.
  destruct st as [m0 t0 e0].
  destruct a_in as [a|]; simpl in Hg.
  - injection Hg as ->.
    destruct (N.eqb_spec (getDimZ g) 0) as [E|E], (rsAssert_fatal b) eqn:F,
      (sc_xEnd c =? 0), (sc_yEnd c =? 0), (sc_zEnd c =? 0);
      mrun; rewrite ?E, ?F; cbn;
      (split; [done|]);
      (split; [by rewrite ?errors_app, ?app_nil_r|]);
      first [by left|right; split; [done|]; by exists g].
  - destruct (sc_xEnd c =? 0), (sc_yEnd c =? 0), (sc_zEnd c =? 0);
      mrun; (split; [done|]); (split; [done|by left]).
Qed.

Lemma forEachKernelSetup_completes (b : Build) (self : ScriptImpl)
    (slot_ : N) (st : State) :
  rsAssert_fatal b = false ->
  is_Some (mForEachFunctions self !! N.to_nat slot_) ->
  is_Some (mForEachSignatures self !! N.to_nat slot_) ->
  fst (forEachKernelSetup b self slot_ st) = Done tt.
Proof.
  intros Hf [k Hk] [g Hg]. destruct st as [m0 t0 e0].
  unfold forEachKernelSetup. mrun. rewrite Hf, Hk, Hg.
  repeat match goal with
         | |- context [if ?c then _ else _] => destruct c eqn:?; cbn
         end; done.
Qed.

Lemma launch_no_slice (native : Native) (self : ScriptImpl) (st : State) :
  slices (mtls st) = [] ->
  (oldTLS ← setTLS (this self);
   st' ← m_get;
   _ ← launchThreads native (mtls st');
   _ ← setTLS oldTLS;
   mret tt) st = (Done tt, st).
Proof.
  intros H. destruct st as [m t e]. simpl in H.
  cbv [mbind M_bind m_bind setTLS m_get mtls tls events launchThreads].
  rewrite H. reflexivity.
Qed.

(** A launch that is empty once clamped leaves [forEachMtlsSetup] by one
    of its early returns: the array range of the descriptor is still the
    empty one that [memset] gave it, and no error has been reported. *)
Lemma forEachMtlsSetup_empty (b : Build) (self : ScriptImpl)
    (a_in a_out : option Allocation) (usr_ usrLen_ : N)
    (c : RsScriptCall) (g : Allocation) (st : State) :
  valid_buffers a_in a_out ->
  governing a_in a_out = Some g ->
  subregion_empty g c ->
  let r := forEachMtlsSetup b self a_in a_out usr_ usrLen_ (Some c) st in
  arrayStart (mtls (snd r)) = 0 ∧ arrayEnd (mtls (snd r)) = 0 ∧
  errors (events (snd r)) = errors (events st).
Proof.
  intros Hv Hg Hemp.
  rewrite (governing_dims _ _ _ _ _ _ _ g) by done.
  destruct (forEachMtlsSetup_domain_empty b self a_in a_out usr_ usrLen_ c g
    (with_mtls (λ _, set_dims (getDimX g) (getDimY g) (getDimZ g) mtls_zero)
               st))
    as (Has & Hae & _ & (evs & Hev & Hevs & _) & _); try done.
  cbv zeta. split; [done|]. split; [done|].
  rewrite Hev. cbn. rewrite errors_app.
  destruct (only_asserts _ Hevs) as [-> _]. by rewrite app_nil_r.
Qed.

Lemma invokeForEach_empty (b : Build) (native : Native) (self : ScriptImpl)
    (slot_ : N) (a_in a_out : option Allocation) (usr_ usrLen_ : N)
    (c : RsScriptCall) (g : Allocation) (st : State) :
  valid_buffers a_in a_out ->
  governing a_in a_out = Some g ->
  subregion_empty g c ->
  let r := invokeForEach b native self slot_ a_in a_out usr_ usrLen_
             (Some c) st in
  kernel_calls (events (snd r)) = kernel_calls (events st) ∧
  errors (events (snd r)) = errors (events st) ∧
  assert_failures (events (snd r)) ≠ assert_failures (events st) ∧
  (rsAssert_fatal b = false ->
   is_Some (mForEachFunctions self !! N.to_nat slot_) ->
   is_Some (mForEachSignatures self !! N.to_nat slot_) ->
   fst r = Done tt ∧ tls (snd r) = tls st).
Proof.
  intros Hv Hg Hemp. unfold invokeForEach.
  rewrite bind_run, (governing_dims _ _ _ _ _ _ _ g) by done.
  destruct (forEachMtlsSetup_domain_empty b self a_in a_out usr_ usrLen_ c g
    (with_mtls (λ _, set_dims (getDimX g) (getDimY g) (getDimZ g) mtls_zero)
               st))
    as (Has & Hae & Ht & (evs & Hev & Hevs & Hne) & Ho); try done.
  destruct (forEachMtlsSetup_domain _ _ _ _ _ _ _ _) as [o1 st1].
  simpl in Has, Hae, Ht, Hev, Ho.
  destruct (only_asserts _ Hevs) as [Herr Hker].
  assert (Hgrow : ∀ l, assert_failures (events st ++ evs ++ l)
                       ≠ assert_failures (events st)).
  { intros l H. rewrite !assert_failures_app, Hevs in H.
    apply (f_equal length) in H. rewrite !length_app in H.
    destruct evs; [done|]. simpl in H. lia. }
  destruct Ho as [->|[-> Hfat]].
  2: { cbn. rewrite Hev, errors_app, kernel_calls_app, Herr, Hker, !app_nil_r.
       repeat split; try done.
       - specialize (Hgrow []). by rewrite app_nil_r in Hgrow.
       - congruence. }
  rewrite bind_run.
  pose proof (forEachKernelSetup_frame b self slot_ st1)
    as (_ & Has2 & Hae2 & Ht2 & He2 & Hk2).
  pose proof (forEachKernelSetup_completes b self slot_ st1) as Hc2.
  assert (Hmono : ∃ l, events (forEachKernelSetup b self slot_ st1).2
                       = events st1 ++ l).
  { destruct st1 as [m1 t1 e1]. unfold forEachKernelSetup. mrun.
    repeat match goal with
           | |- context [if ?c then _ else _] => destruct c eqn:?; cbn
           | |- context [match ?l !! ?i with _ => _ end] =>
               destruct (l !! i) eqn:?; cbn
           end; rewrite <- ?app_assoc; eauto; exists []; by rewrite app_nil_r. }
  destruct Hmono as [l Hl].
  destruct (forEachKernelSetup _ _ _ _) as [o2 st2].
  simpl in Has2, Hae2, Ht2, He2, Hk2, Hc2, Hl.
  assert (Hsl : slices (mtls st2) = [])
    by (apply slices_no_array; congruence).
  assert (Hfacts : kernel_calls (events st2) = kernel_calls (events st) ∧
                   errors (events st2) = errors (events st) ∧
                   assert_failures (events st2) ≠ assert_failures (events st)).
  { rewrite Hk2, He2, Hl, Hev, errors_app, kernel_calls_app, Herr, Hker,
      !app_nil_r, <- app_assoc. repeat split; done. }
  destruct Hfacts as (F1 & F2 & F3).
  destruct o2 as [[]|f]; cbv beta iota.
  - rewrite launch_no_slice by done. cbn. repeat split; try done.
    congruence.
  - cbn. split; [done|]. split; [done|]. split; [done|].
    intros G1 G2 G3. by specialize (Hc2 G1 G2 G3).
Qed.

(** C2. For a launch that passes validation and is given a sub-region:
    (a) when every axis is unrestricted (end 0) or has
    [start < end <= extent], [forEachMtlsSetup] leaves in the descriptor, on
    each restricted axis, the sub-region clamped to the extent (which is the
    sub-region itself), and on each unrestricted axis the whole extent;
    no error is reported;
    (b) when some restricted axis has [start >= end] after clamping,
    [forEachMtlsSetup] leaves the array range of the descriptor empty and
    reports no error, and [invokeForEach] enters the kernel function no
    time and reports no error to the context (the failed bound assertion
    is recorded); with non-fatal assertions and a slot inside the kernel
    table it returns normally, the thread-local script pointer restored. *)
Theorem C2_subregion_domain
    (b : Build) (native : Native) (self : ScriptImpl) (slot_ : N)
    (a_in a_out : option Allocation) (usr_ usrLen_ : N)
    (c : RsScriptCall) (g : Allocation) (st : State) :
  valid_buffers a_in a_out ->
  governing a_in a_out = Some g ->
  (subregion_ok g c ->
   let r := forEachMtlsSetup b self a_in a_out usr_ usrLen_ (Some c) st in
   domain (mtls (snd r)) =
     (expected_axis (getDimX g) (sc_xStart c) (sc_xEnd c),
      expected_axis (getDimY g) (sc_yStart c) (sc_yEnd c),
      expected_axis (getDimZ g) (sc_zStart c) (sc_zEnd c)) ∧
   errors (events (snd r)) = errors (events st) ∧
   (fst r = Done tt ∨
    (rsAssert_fatal b = true ∧ ∃ a, a_in = Some a ∧ getDimZ a ≠ 0))) ∧
  (subregion_empty g c ->
   (let d := forEachMtlsSetup b self a_in a_out usr_ usrLen_ (Some c) st in
    arrayStart (mtls (snd d)) = 0 ∧ arrayEnd (mtls (snd d)) = 0 ∧
    errors (events (snd d)) = errors (events st)) ∧
   let r := invokeForEach b native self slot_ a_in a_out usr_ usrLen_
              (Some c) st in
   kernel_calls (events (snd r)) = kernel_calls (events st) ∧
   errors (events (snd r)) = errors (events st) ∧
   assert_failures (events (snd r)) ≠ assert_failures (events st) ∧
   (rsAssert_fatal b = false ->
    is_Some (mForEachFunctions self !! N.to_nat slot_) ->
    is_Some (mForEachSignatures self !! N.to_nat slot_) ->
    fst r = Done tt ∧ tls (snd r) = tls st)).
Proof.
  intros Hv Hg. split.
  - intros Hok.
    exact (forEachMtlsSetup_ok b self a_in a_out usr_ usrLen_ c g st
             Hv Hg Hok).
  - intros Hemp. split.
    + exact (forEachMtlsSetup_empty b self a_in a_out usr_ usrLen_ c g st
               Hv Hg Hemp).
    + exact (invokeForEach_empty b native self slot_ a_in a_out usr_ usrLen_
               c g st Hv Hg Hemp).
Qed.

Lemma sample_valid : valid_buffers (Some sample_alloc) None.
Proof. repeat split. left. by exists sample_alloc. Defined.

Lemma C1_unrestricted_domain_witness :
  valid_buffers (Some sample_alloc) None ∧
  governing (Some sample_alloc) None = Some sample_alloc ∧
  no_subregion None ∧
  let r := forEachMtlsSetup build_compat sample_script (Some sample_alloc)
             None 0 0 None sample_state in
  domain (mtls (snd r)) = ((0, 16), (0, 4), (0, 1)) ∧
  errors (events (snd r)) = [] ∧
  (fst r = Done tt ∨
   (rsAssert_fatal build_compat = true ∧
    ∃ a, Some sample_alloc = Some a ∧ getDimZ a ≠ 0)).
Proof.
  split; [exact sample_valid|]. split; [reflexivity|]. split; [exact I|].
  exact (C1_unrestricted_domain build_compat sample_script
           (Some sample_alloc) None 0 0 None sample_alloc sample_state
           sample_valid eq_refl I).
Defined.

Lemma sample_window_ok : subregion_ok sample_alloc sample_window.
Proof. repeat split; first [by left | right; split; by vm_compute]. Defined.

Lemma reversed_window_empty : subregion_empty sample_alloc reversed_window.
Proof. left. split; [done|]. by vm_compute. Defined.

Lemma C2_subregion_domain_witness :
  valid_buffers (Some sample_alloc) None ∧
  governing (Some sample_alloc) None = Some sample_alloc ∧
  (subregion_ok sample_alloc sample_window ∧
   let r := forEachMtlsSetup build_compat sample_script (Some sample_alloc)
              None 0 0 (Some sample_window) sample_state in
   domain (mtls (snd r)) = ((2, 10), (1, 3), (0, 1)) ∧
   errors (events (snd r)) = [] ∧ fst r = Done tt) ∧
  (subregion_empty sample_alloc reversed_window ∧
   arrayEnd (mtls (snd (forEachMtlsSetup build_compat sample_script
                          (Some sample_alloc) None 0 0
                          (Some reversed_window) sample_state))) = 0 ∧
   let r := invokeForEach build_compat quiet_native sample_script 1
              (Some sample_alloc) None 0 0 (Some reversed_window)
              sample_state in
   kernel_calls (events (snd r)) = [] ∧
   errors (events (snd r)) = [] ∧
   fst r = Done tt ∧ tls (snd r) = 7).
Proof.
  split; [exact sample_valid|]. split; [reflexivity|]. split.
  - split; [exact sample_window_ok|].
    pose proof (proj1 (C2_subregion_domain build_compat quiet_native
      sample_script 1 (Some sample_alloc) None 0 0 sample_window sample_alloc
      sample_state sample_valid eq_refl) sample_window_ok) as (H1 & H2 & H3).
    split; [exact H1|]. split; [exact H2|reflexivity].
  - split; [exact reversed_window_empty|].
    pose proof (proj2 (C2_subregion_domain build_compat quiet_native
      sample_script 1 (Some sample_alloc) None 0 0 reversed_window
      sample_alloc sample_state sample_valid eq_refl) reversed_window_empty)
      as ((_ & H0 & _) & H1 & H2 & _ & H4).
    split; [exact H0|]. split; [exact H1|]. split; [exact H2|].
    apply H4; [reflexivity|by eexists|by eexists].
Defined.

(** ** Kernel resolution *)

(** In the full build an out-of-range slot fails the assertion of line 863
    before the table is read. *)
Lemma forEachKernelSetup_full_checked (b : Build) (self : ScriptImpl)
    (slot_ : N) (st : State) :
  RS_COMPATIBILITY_LIB b = false ->
  N.of_nat (length (mForEachFunctions self)) <= slot_ ->
  let r := forEachKernelSetup b self slot_ st in
  events (snd r) = events st ++
    [EvAssertFailed "slot < mExecutable->getExportForeachFuncAddrs().size()"] ∧
  fst r = Fault (if rsAssert_fatal b then AssertAbort else OutOfBounds).
Proof.
  intros Hb Hs. destruct st as [m0 t0 e0]. unfold forEachKernelSetup. mrun.
  rewrite Hb. destruct (N.ltb_spec slot_ (N.of_nat (length (mForEachFunctions self))));
    [lia|].
  destruct (rsAssert_fatal b); [done|]. cbn.
  rewrite (proj2 (lookup_ge_None _ _)) by lia. done.
Qed.

(** In the compatibility build the table is read at any slot: nothing is
    asserted about the slot. *)
Lemma forEachKernelSetup_compat_unchecked (b : Build) (self : ScriptImpl)
    (slot_ : N) (st : State) :
  RS_COMPATIBILITY_LIB b = true ->
  N.of_nat (length (mForEachFunctions self)) <= slot_ ->
  forEachKernelSetup b self slot_ st =
    (Fault OutOfBounds, with_mtls (set_script_slot (this self) slot_) st).
Proof.
  intros Hb Hs. destruct st as [m0 t0 e0]. unfold forEachKernelSetup. mrun.
  rewrite Hb. cbn. rewrite (proj2 (lookup_ge_None _ _)) by lia. done.
Qed.

(** In both builds a slot that holds a NULL kernel fails the assertion of
    lines 866 and 870. *)
Lemma forEachKernelSetup_null_kernel (b : Build) (self : ScriptImpl)
    (slot_ : N) (st : State) :
  mForEachFunctions self !! N.to_nat slot_ = Some 0 ->
  let r := forEachKernelSetup b self slot_ st in
  events (snd r) = events st ++ [EvAssertFailed "mtls->kernel != NULL"] ∧
  (rsAssert_fatal b = true -> fst r = Fault AssertAbort).
Proof.
  intros Hk. destruct st as [m0 t0 e0]. unfold forEachKernelSetup. mrun.
  rewrite Hk. pose proof (lookup_lt_Some _ _ _ Hk) as Hlt.
  destruct (N.ltb_spec slot_ (N.of_nat (length (mForEachFunctions self))));
    [|lia].
  destruct (RS_COMPATIBILITY_LIB b), (rsAssert_fatal b); cbn;
    destruct (mForEachSignatures self !! N.to_nat slot_); done.
Qed.

(** C6, at the failing input: the compatibility build, a script with two
    kernels, slot 2. The table is indexed outside its extent and no
    assertion has failed; the full build asserts on the same call. *)
Theorem C6_compat_slot_not_asserted :
  let r := forEachKernelSetup build_compat sample_script 2 sample_state in
  fst r = Fault OutOfBounds ∧ assert_failures (events (snd r)) = [] ∧
  let r' := forEachKernelSetup (mkBuild false false) sample_script 2
              sample_state in
  assert_failures (events (snd r')) =
    [EvAssertFailed "slot < mExecutable->getExportForeachFuncAddrs().size()"].
Proof. vm_compute. done. Qed.

(** ** The thread-local script pointer *)

Lemma launch_restores_tls (native : Native) (self : ScriptImpl) (st : State) :
  let r := (oldTLS ← setTLS (this self);
            st' ← m_get;
            _ ← launchThreads native (mtls st');
            _ ← setTLS oldTLS;
            mret tt) st in
  fst r = Done tt -> tls (snd r) = tls st.
Proof.
  destruct st as [m t e].
  cbv [mbind M_bind m_bind setTLS m_get mtls tls events mret M_ret m_ret].
  destruct (launchThreads native m _) as [[[]|f] s3]; cbn; done.
Qed.

Lemma invokeForEach_restores_tls (b : Build) (native : Native)
    (self : ScriptImpl) (slot_ : N) (a_in a_out : option Allocation)
    (usr_ usrLen_ : N) (sc : option RsScriptCall) (st : State) :
  let r := invokeForEach b native self slot_ a_in a_out usr_ usrLen_ sc st in
  fst r = Done tt -> tls (snd r) = tls st.
Proof.
  unfold invokeForEach. rewrite bind_run.
  assert (H1 : tls (forEachMtlsSetup b self a_in a_out usr_ usrLen_ sc st).2
               = tls st).
  { unfold forEachMtlsSetup. rewrite bind_run. cbn.
    destruct (unbacked a_in); [done|]. destruct (unbacked a_out); [done|].
    assert (Hd : ∀ s0, tls (forEachMtlsSetup_domain b self a_in a_out usr_
                              usrLen_ sc s0).2 = tls s0).
    { intros s0. unfold forEachMtlsSetup_domain.
      rewrite bind_run.
      destruct (restrict_axis_step b sc dimX sc_xStart sc_xEnd
                  set_xStart set_xEnd "x" (λ _, True) s0)
        as (_ & Ht1 & _); try done.
      destruct (restrict_axis _ _ dimX _ _ _ _ _ _) as [[[]|]st1]; try done.
      cbn [negb]. rewrite bind_run.
      destruct (restrict_axis_step b sc dimY sc_yStart sc_yEnd
                  set_yStart set_yEnd "y" (λ _, True) st1)
        as (_ & Ht2 & _); try done.
      destruct (restrict_axis _ _ dimY _ _ _ _ _ _) as [[[]|]st2];
        try (simpl in *; congruence).
      cbn [negb]. rewrite bind_run.
      destruct (restrict_axis_step b sc dimZ sc_zStart sc_zEnd
                  set_zStart set_zEnd "z" (λ _, True) st2)
        as (_ & Ht3 & _); try done.
      destruct (restrict_axis _ _ dimZ _ _ _ _ _ _) as [[[]|]st3];
        try (simpl in *; congruence).
      simpl in *. destruct st3 as [m3 t3 e3]. simpl in *. subst.
      mrun. destruct a_in as [a|]; [destruct (getDimZ a =? 0)|];
        destruct (rsAssert_fatal b); cbn; congruence. }
    destruct a_in, a_out; try done; rewrite bind_run; cbn; by rewrite Hd. }
  destruct (forEachMtlsSetup _ _ _ _ _ _ _ _) as [[[]|f] st1]; [|done].
  rewrite bind_run.
  pose proof (forEachKernelSetup_frame b self slot_ st1)
    as (_ & _ & _ & Ht2 & _).
  destruct (forEachKernelSetup _ _ _ _) as [[[]|f] st2]; [|done].
  simpl in H1, Ht2. intros Hdone.
  rewrite (launch_restores_tls native self st2 Hdone). congruence.
Qed.

(** C9, as the code has it. [invokeRoot] and [invokeFunction] install the
    owning instance in the thread-local script pointer before they enter
    script code and put the previous value back after it, whatever the
    script code did to the pointer. [invokeInit] and [invokeFreeChildren]
    enter script code, when the entry point is not NULL, without touching
    the pointer: the script code sees the caller's value, and the value
    after the call is the one the script code left. *)
Theorem C9_tls_wrappers (native : Native) (self : ScriptImpl) (st : State) :
  (mRoot self ≠ 0 ->
   let r := invokeRoot native self st in
   events (snd r) = events st ++ [EvNativeCall (mRoot self) (this self)] ∧
   tls (snd r) = tls st ∧
   fst r = Done (snd (native (mRoot self) (this self)))) ∧
  (∀ slot_ fn,
   mInvokeFunctions self !! N.to_nat slot_ = Some fn -> fn ≠ 0 ->
   let r := invokeFunction native self slot_ st in
   events (snd r) = events st ++ [EvNativeCall fn (this self)] ∧
   tls (snd r) = tls st ∧ fst r = Done tt) ∧
  (mInit self ≠ 0 ->
   let r := invokeInit native self st in
   events (snd r) = events st ++ [EvNativeCall (mInit self) (tls st)] ∧
   tls (snd r) = fst (native (mInit self) (tls st)) ∧ fst r = Done tt) ∧
  (mFreeChildren self ≠ 0 ->
   let r := invokeFreeChildren native self st in
   events (snd r) =
     events st ++ [EvNativeCall (mFreeChildren self) (tls st)] ∧
   tls (snd r) = fst (native (mFreeChildren self) (tls st)) ∧
   fst r = Done tt).
Proof.
  destruct st as [m t e]. repeat split.
  all: unfold invokeRoot, invokeFunction, invokeInit, invokeFreeChildren,
         call_native; mrun;
       repeat match goal with
              | H : ?x ≠ 0 |- _ => apply N.eqb_neq in H; rewrite ?H
              | H : _ !! _ = Some _ |- _ => rewrite H
              end; cbn; rewrite ?H0; done.
Qed.

Lemma C9_tls_wrappers_witness :
  (let r := invokeRoot noisy_native sample_script sample_state in
   events (snd r) = [EvNativeCall 11 100] ∧ tls (snd r) = 7 ∧
   fst r = Done 3%Z) ∧
  (let r := invokeFunction noisy_native sample_script 1 sample_state in
   events (snd r) = [EvNativeCall 22 100] ∧ tls (snd r) = 7 ∧
   fst r = Done tt) ∧
  (let r := invokeInit noisy_native sample_script sample_state in
   events (snd r) = [EvNativeCall 12 7] ∧ tls (snd r) = 55 ∧
   fst r = Done tt) ∧
  (let r := invokeFreeChildren noisy_native sample_script sample_state in
   events (snd r) = [EvNativeCall 13 7] ∧ tls (snd r) = 55 ∧
   fst r = Done tt).
Proof.
  destruct (C9_tls_wrappers noisy_native sample_script sample_state)
    as (H1 & H2 & H3 & H4).
  split; [apply H1; by vm_compute|].
  split; [apply (H2 1 22); by vm_compute|].
  split; [apply H3; by vm_compute|apply H4; by vm_compute].
Defined.

(** C9, as stated, fails for [invokeInit]: called while the thread-local
    pointer holds 7, on the instance at address 100, it enters the script's
    initializer with the pointer still at 7. *)
Lemma C9_init_keeps_caller_tls :
  ¬ (∀ (native : Native) (self : ScriptImpl) (st : State) (fn seen : N),
       mInit self ≠ 0 ->
       events (snd (invokeInit native self st)) =
         events st ++ [EvNativeCall fn seen] ->
       seen = this self).
Proof.
  intros H.
  specialize (H quiet_native sample_script sample_state 12 7).
  assert (E : 7 = this sample_script) by (apply H; by vm_compute).
  vm_compute in E. discriminate E.
Qed.

End LaunchFacts.

(** * Properties of the object-typed variable setter *)

Section VarsFacts.
Import Vars VarsSpec.

Ltac vrun :=
  cbv [mbind mret M_bind M_ret m_bind m_ret m_get m_modify m_fault
       rsAssert rsAssertWith index memcpy]; cbn.

Lemma incSysRef_comm (h1 h2 : N) (r : gmap N positive) :
  incSysRef h1 (incSysRef h2 r) = incSysRef h2 (incSysRef h1 r).
Proof.
  destruct (decide (h1 = h2)) as [->|Hne]; [done|].
  unfold incSysRef.
  destruct (r !! h1) as [p1|] eqn:E1, (r !! h2) as [p2|] eqn:E2;
    rewrite ?lookup_insert_ne, ?E1, ?E2 by done; try done.
  by apply insert_insert_ne.
Qed.

Lemma decSysRef_incSysRef (h : N) (r : gmap N positive) :
  decSysRef h (incSysRef h r) = r.
Proof.
  unfold incSysRef, decSysRef.
  destruct (r !! h) as [p|] eqn:E; [|by rewrite E].
  rewrite lookup_insert_eq.
  destruct (Pos.succ p) as [q|q|] eqn:Es.
  - rewrite <- Es, Pos.pred_succ, insert_insert_eq. by apply insert_id.
  - rewrite <- Es, Pos.pred_succ, insert_insert_eq. by apply insert_id.
  - by apply Pos.succ_not_1 in Es.
Qed.

Lemma inc_all_incSysRef (h : N) (l : list N) (r : gmap N positive) :
  inc_all (incSysRef h r) l = incSysRef h (inc_all r l).
Proof.
  revert r. induction l as [|x l IH]; intros r; [done|].
  cbn. rewrite <- IH. f_equal. apply incSysRef_comm.
Qed.

(** Taking a reference of each object of a list and then dropping one of
    each leaves every count as it was, and destroys nothing. *)
Lemma dec_all_inc_all (l : list N) (r : gmap N positive) :
  dec_all (inc_all r l) l = r.
Proof.
  revert r. induction l as [|h l IH]; intros r; [done|].
  cbn. fold (inc_all (incSysRef h r) l).
  rewrite inc_all_incSysRef, decSysRef_incSysRef. apply IH.
Qed.

Lemma each_incRefs (elem : Element) (n : nat) (p stride : N) (st : State) :
  each_element (incRefs elem) n p stride st =
    (Done tt,
     mkState (mem st)
             (inc_all (refs st) (refs_of elem (mem st) n p stride))
             (events st ++ map EvIncRef (refs_of elem (mem st) n p stride))).
Proof.
  revert p st. induction n as [|n IH]; intros p [m r e].
  - cbn. by rewrite app_nil_r.
  - cbn [each_element refs_of]. rewrite bind_run. cbn. rewrite IH. cbn.
    unfold inc_all. by rewrite foldl_app, map_app, app_assoc.
Qed.

Lemma each_decRefs (elem : Element) (n : nat) (p stride : N) (st : State) :
  each_element (decRefs elem) n p stride st =
    (Done tt,
     mkState (mem st)
             (dec_all (refs st) (refs_of elem (mem st) n p stride))
             (events st ++ map EvDecRef (refs_of elem (mem st) n p stride))).
Proof.
  revert p st. induction n as [|n IH]; intros p [m r e].
  - cbn. by rewrite app_nil_r.
  - cbn [each_element refs_of]. rewrite bind_run. cbn. rewrite IH. cbn.
    unfold dec_all. by rewrite foldl_app, map_app, app_assoc.
Qed.

Lemma load_ptr_same (m : gmap N N) (a b : N) :
  (∀ k, k < sizeof_ptr -> load_byte m (a + k) = load_byte m (b + k)) ->
  load_ptr m a = load_ptr m b.
Proof.
  intros H. unfold load_ptr.
  pose proof (H 0) as H0. rewrite !N.add_0_r in H0.
  rewrite H0, (H 1), (H 2), (H 3) by (by vm_compute). done.
Qed.

Lemma element_refs_same (elem : Element) (m : gmap N N) (a b : N) :
  wf_element elem ->
  same_bytes m a b (getSizeBytes elem) ->
  element_refs elem m a = element_refs elem m b.
Proof.
  intros Hwf Hs. unfold element_refs. f_equal.
  apply map_ext_in. intros off Hin.
  apply load_ptr_same. intros k Hk.
  unfold wf_element in Hwf. rewrite Forall_forall in Hwf.
  apply list_elem_of_In, Hwf in Hin.
  rewrite <- !N.add_assoc. apply Hs. lia.
Qed.

Lemma refs_of_same (elem : Element) (m : gmap N N) (n : nat) (a b : N) :
  wf_element elem ->
  same_bytes m a b (N.of_nat n * getSizeBytes elem) ->
  refs_of elem m n a (getSizeBytes elem) = refs_of elem m n b (getSizeBytes elem).
Proof.
  intros Hwf. revert a b. induction n as [|n IH]; intros a b Hs; [done|].
  cbn [refs_of]. f_equal.
  - apply element_refs_same; [done|]. intros k Hk. apply Hs. lia.
  - apply IH. intros k Hk. rewrite <- !N.add_assoc. apply Hs. lia.
Qed.

Lemma index_Some {S A} (l : list A) (i : N) (v : A) (s : S) :
  l !! N.to_nat i = Some v -> index l i s = (Done v, s).
Proof. intros H. unfold index. by rewrite H. Qed.

(** An unresolved slot: lines 959-962. *)
Lemma setGlobalVarWithElemDims_null (b : Build) (fieldAddress : list N)
    (slot_ data dataLength : N) (elem : Element) (dims : list N)
    (dimLength : N) (st : State) :
  fieldAddress !! N.to_nat slot_ = Some 0 ->
  setGlobalVarWithElemDims b fieldAddress slot_ data dataLength elem dims
    dimLength st = (Done tt, st).
Proof.
  intros H. unfold setGlobalVarWithElemDims.
  by rewrite bind_run, (index_Some _ _ _ _ H).
Qed.

(** A single dimension, on a resolved slot. *)
Lemma setGlobalVarWithElemDims_single (b : Build) (fieldAddress : list N)
    (slot_ dest data dataLength : N) (elem : Element) (n : N)
    (dims' : list N) (dimLength : N) (st : State) :
  fieldAddress !! N.to_nat slot_ = Some dest -> dest ≠ 0 ->
  dimLength / sizeof_int = 1 ->
  setGlobalVarWithElemDims b fieldAddress slot_ data dataLength elem
    (n :: dims') dimLength st =
  (Done tt,
   let incoming :=
     refs_of elem (mem st) (N.to_nat n) data (getSizeBytes elem) in
   let outgoing :=
     refs_of elem (mem st) (N.to_nat n) dest (getSizeBytes elem) in
   mkState (memcpy_mem dest data dataLength (mem st))
           (dec_all (inc_all (refs st) incoming) outgoing)
           (events st ++ map EvIncRef incoming ++ map EvDecRef outgoing)).
Proof.
  intros H Hne Hdim. unfold setGlobalVarWithElemDims.
  rewrite bind_run, (index_Some _ _ _ _ H).
  apply N.eqb_neq in Hne. rewrite Hne, Hdim. destruct st as [m rf ev].
  change (1 =? 1) with true. cbv iota.
  rewrite bind_run. cbn [rsAssert rsAssertWith mret M_ret m_ret].
  rewrite !bind_run, (index_Some (n :: dims') 0 n) by done.
  rewrite bind_run, each_incRefs, each_decRefs. cbn.
  by rewrite <- app_assoc.
Qed.

(** C3. A single-dimension call of [setGlobalVarWithElemDims] on a slot
    with a resolved address first takes one reference of every object the
    incoming elements refer to, in order, and only then drops one reference
    of every object the elements in the variable refer to: the record of
    reference operations is all the increments followed by all the
    decrements. On an unresolved slot nothing happens. In either case,
    when the bytes of the incoming elements equal those of the elements in
    the variable (in particular when the two are the same storage), every
    reference count after the call is what it was before, and no object
    has been destroyed. *)
Theorem C3_increment_before_decrement
    (b : Build) (fieldAddress : list N) (slot_ dest : N)
    (data dataLength : N) (elem : Element) (n : N) (dims' : list N)
    (dimLength : N) (st : State) :
  fieldAddress !! N.to_nat slot_ = Some dest ->
  dimLength / sizeof_int = 1 ->
  let r := setGlobalVarWithElemDims b fieldAddress slot_ data dataLength
             elem (n :: dims') dimLength st in
  let incoming :=
    refs_of elem (mem st) (N.to_nat n) data (getSizeBytes elem) in
  let outgoing :=
    refs_of elem (mem st) (N.to_nat n) dest (getSizeBytes elem) in
  fst r = Done tt ∧
  events (snd r) =
    events st ++ (if dest =? 0 then []
                  else map EvIncRef incoming ++ map EvDecRef outgoing) ∧
  (wf_element elem ->
   same_bytes (mem st) data dest (n * getSizeBytes elem) ->
   refs (snd r) = refs st).
Proof.
  intros Hslot Hdim r incoming outgoing. subst r.
  destruct (N.eqb_spec dest 0) as [->|Hne].
  { rewrite setGlobalVarWithElemDims_null by done.
    cbn. by rewrite app_nil_r. }
  rewrite (setGlobalVarWithElemDims_single _ _ _ dest) by done.
  cbn [fst snd events refs]. fold incoming outgoing.
  split; [done|]. split; [done|].
  intros Hwf Hsame.
  assert (Heq : incoming = outgoing).
  { apply refs_of_same; [done|]. by rewrite N2Nat.id. }
  rewrite Heq. apply dec_all_inc_all.
Qed.

Lemma sample_elem_wf : wf_element sample_elem.
Proof. repeat constructor. by vm_compute. Defined.

Lemma C3_increment_before_decrement_witness :
  sample_fields !! N.to_nat 1 = Some 128 ∧
  4 / sizeof_int = 1 ∧
  (let r := setGlobalVarWithElemDims build_compat_vars sample_fields 1 64 16
              sample_elem [2] 4 sample_state in
   fst r = Done tt ∧
   events (snd r) =
     [EvIncRef 200; EvIncRef 208; EvDecRef 216; EvDecRef 200]) ∧
  (let r := setGlobalVarWithElemDims build_compat_vars sample_fields 1 128 16
              sample_elem [2] 4 sample_state in
   fst r = Done tt ∧
   events (snd r) =
     [EvIncRef 216; EvIncRef 200; EvDecRef 216; EvDecRef 200] ∧
   refs (snd r) = refs sample_state).
Proof.
  split; [reflexivity|]. split; [reflexivity|]. split.
  - pose proof (C3_increment_before_decrement build_compat_vars sample_fields
                  1 128 64 16 sample_elem 2 [] 4 sample_state
                  eq_refl eq_refl) as (H1 & H2 & _).
    split; [exact H1|exact H2].
  - pose proof (C3_increment_before_decrement build_compat_vars sample_fields
                  1 128 128 16 sample_elem 2 [] 4 sample_state
                  eq_refl eq_refl) as (H1 & H2 & H3).
    split; [exact H1|]. split; [exact H2|].
    apply H3; [exact sample_elem_wf|]. intros k _. reflexivity.
Defined.

(** More than one dimension, on a resolved slot: the assertion of line 969
    fails, the two loops are skipped, and, unless the assertion stopped the
    program, line 987 copies the bytes. *)
Lemma setGlobalVarWithElemDims_multi (b : Build) (fieldAddress : list N)
    (slot_ dest data dataLength : N) (elem : Element) (dims : list N)
    (dimLength : N) (st : State) :
  fieldAddress !! N.to_nat slot_ = Some dest -> dest ≠ 0 ->
  dimLength / sizeof_int ≠ 1 ->
  setGlobalVarWithElemDims b fieldAddress slot_ data dataLength elem dims
    dimLength st =
  if rsAssert_fatal b then
    (Fault AssertAbort,
     mkState (mem st) (refs st) (events st ++ [EvAssertFailed "dimLength == 1"]))
  else
    (Done tt,
     mkState (memcpy_mem dest data dataLength (mem st)) (refs st)
             (events st ++ [EvAssertFailed "dimLength == 1"])).
Proof.
  intros H Hne Hdim. unfold setGlobalVarWithElemDims.
  rewrite bind_run, (index_Some _ _ _ _ H).
  apply N.eqb_neq in Hne, Hdim. rewrite Hne, Hdim. destruct st as [m rf ev].
  vrun. by destruct (rsAssert_fatal b).
Qed.

(** C8, as the code has it. A request with more than one dimension on a
    slot whose address is resolved fails the single-dimension assertion and
    changes no reference count; when assertions are fatal the program stops
    there and nothing has been written to the slot. On a slot whose address
    is NULL the call returns at once: nothing is signalled and nothing is
    written. *)
Theorem C8_multi_dimensional
    (b : Build) (fieldAddress : list N) (slot_ dest : N)
    (data dataLength : N) (elem : Element) (dims : list N)
    (dimLength : N) (st : State) :
  fieldAddress !! N.to_nat slot_ = Some dest ->
  1 < dimLength / sizeof_int ->
  let r := setGlobalVarWithElemDims b fieldAddress slot_ data dataLength
             elem dims dimLength st in
  (dest = 0 -> r = (Done tt, st)) ∧
  (dest ≠ 0 ->
   events (snd r) = events st ++ [EvAssertFailed "dimLength == 1"] ∧
   refs (snd r) = refs st ∧
   (rsAssert_fatal b = true ->
    fst r = Fault AssertAbort ∧ mem (snd r) = mem st)).
Proof.
  intros Hslot Hdim r. subst r. split.
  - intros ->. by apply setGlobalVarWithElemDims_null.
  - intros Hne. rewrite (setGlobalVarWithElemDims_multi _ _ _ dest)
      by (try done; lia).
    destruct (rsAssert_fatal b); cbn; done.
Qed.

Lemma C8_multi_dimensional_witness :
  sample_fields !! N.to_nat 1 = Some 128 ∧
  sample_fields !! N.to_nat 0 = Some 0 ∧
  1 < 8 / sizeof_int ∧
  (let r := setGlobalVarWithElemDims build_fatal_vars sample_fields 1 64 16
              sample_elem [2; 2] 8 sample_state in
   events (snd r) = [EvAssertFailed "dimLength == 1"] ∧
   refs (snd r) = sample_refs ∧
   fst r = Fault AssertAbort ∧ mem (snd r) = sample_mem) ∧
  setGlobalVarWithElemDims build_fatal_vars sample_fields 0 64 16
    sample_elem [2; 2] 8 sample_state = (Done tt, sample_state).
Proof.
  split; [reflexivity|]. split; [reflexivity|]. split; [reflexivity|].
  split.
  - pose proof (proj2 (C8_multi_dimensional build_fatal_vars sample_fields
                  1 128 64 16 sample_elem [2; 2] 8 sample_state
                  eq_refl eq_refl)) as H.
    destruct H as (H1 & H2 & H3); [by vm_compute|].
    destruct (H3 eq_refl) as [H4 H5]. done.
  - exact (proj1 (C8_multi_dimensional build_fatal_vars sample_fields
                    0 0 64 16 sample_elem [2; 2] 8 sample_state
                    eq_refl eq_refl) eq_refl).
Defined.

(** C8, as stated, fails: a two-dimensional request on the slot whose
    address is NULL records no failure, even with fatal assertions. *)
Lemma C8_unresolved_slot_not_rejected :
  ¬ (∀ (b : Build) (fieldAddress : list N) (slot_ data dataLength : N)
       (elem : Element) (dims : list N) (dimLength : N) (st : State),
       1 < dimLength / sizeof_int ->
       let r := setGlobalVarWithElemDims b fieldAddress slot_ data
                  dataLength elem dims dimLength st in
       (fst r = Fault AssertAbort ∨
        List.filter is_assert_failure (events (snd r)) ≠
        List.filter is_assert_failure (events st)) ∧
       mem (snd r) = mem st).
Proof.
  intros H.
  destruct (H build_fatal_vars sample_fields 0 64 16 sample_elem [2; 2] 8
              sample_state) as [[Hf|Hf] _]; [by vm_compute| |].
  - vm_compute in Hf. discriminate Hf.
  - apply Hf. reflexivity.
Qed.

(** With assertions that do not stop the program, the same request on a
    resolved slot stores the incoming bytes in the variable all the same,
    without any reference having been taken. *)
Lemma setGlobalVarWithElemDims_multi_copies :
  let r := setGlobalVarWithElemDims build_compat_vars sample_fields 1 64 16
             sample_elem [2; 2] 8 sample_state in
  fst r = Done tt ∧
  load_ptr (mem sample_state) 132 = 216 ∧
  load_ptr (mem (snd r)) 132 = 200 ∧
  refs (snd r) = refs sample_state.
Proof. vm_compute. done. Qed.

End VarsFacts.

(** * Properties of the loader *)

Section LoaderFacts.
Import Loader LoaderSpec.

(** ** The random suffix *)

Lemma random_char_residue (d : N) :
  random_char d = char_of_residue ((N.land d 0xffff) mod 62).
Proof. reflexivity. Qed.

Lemma below_62 (f : N -> bool) :
  forallb (fun k => f (N.of_nat k)) (seq 0 62) = true ->
  ∀ r, r < 62 -> f r = true.
Proof.
  intros H r Hr. rewrite forallb_forall in H.
  rewrite <- (N2Nat.id r). apply H, in_seq. lia.
Qed.

Lemma char_of_residue_alnum (r : N) :
  r < 62 -> alnum (char_of_residue r) = true.
Proof.
  revert r. apply (below_62 (fun r => alnum (char_of_residue r))).
  vm_compute. reflexivity.
Qed.

(** The 62 reduced values give 62 different characters. *)
Lemma char_of_residue_inj (r1 r2 : N) :
  r1 < 62 -> r2 < 62 -> char_of_residue r1 = char_of_residue r2 -> r1 = r2.
Proof.
  intros H1 H2 E.
  assert (Hn : ∀ r, r < 62 ->
            (N_of_ascii (char_of_residue r) =?
             if r <? 26 then 97 + r else if r <? 52 then 39 + r else r - 4)
            = true).
  { apply (below_62 (fun r => N_of_ascii (char_of_residue r) =?
             if r <? 26 then 97 + r else if r <? 52 then 39 + r else r - 4)).
    vm_compute. reflexivity. }
  apply (f_equal N_of_ascii) in E.
  pose proof (Hn r1 H1) as E1. pose proof (Hn r2 H2) as E2.
  apply N.eqb_eq in E1, E2. rewrite E1, E2 in E.
  destruct (N.ltb_spec r1 26), (N.ltb_spec r1 52),
    (N.ltb_spec r2 26), (N.ltb_spec r2 52); lia.
Qed.

Lemma random_char_alnum (d : N) : alnum (random_char d) = true.
Proof.
  rewrite random_char_residue. apply char_of_residue_alnum.
  apply N.mod_lt. lia.
Qed.

Lemma random_chars_length (rnd : nat -> N) (pos len : nat) :
  String.length (random_chars rnd pos len) = len.
Proof. revert pos. induction len; intros; cbn; [done|]. by rewrite IHlen. Qed.

Lemma random_chars_alnum (rnd : nat -> N) (pos len : nat) :
  Forall (fun c => alnum c = true)
         (String.list_ascii_of_string (random_chars rnd pos len)).
Proof.
  revert pos. induction len; intros; cbn; constructor;
    [apply random_char_alnum|apply IHlen].
Qed.

Lemma random_char_small (r : N) :
  r < 62 -> random_char r = char_of_residue r.
Proof.
  intros H. rewrite random_char_residue. f_equal.
  change 65535 with (N.ones 16).
  rewrite N.land_ones, (N.mod_small r (2 ^ 16)), N.mod_small; [done|lia|].
  change (2 ^ 16) with 65536. lia.
Qed.

(** Every string of reduced values is the suffix some run of the random
    number generator yields. *)
Lemma random_chars_draws (rs : list N) :
  Forall (fun r => r < 62) rs ->
  random_chars (draws rs) 0 (length rs) = suffix_of rs.
Proof.
  intros H.
  assert (G : ∀ pre, random_chars (draws (pre ++ rs)) (length pre) (length rs)
                     = suffix_of rs).
  { induction H as [|r rs Hr Hrs IH]; intros pre; [done|].
    cbn [length random_chars]. unfold suffix_of. cbn. f_equal.
    - unfold draws. rewrite app_nth2, Nat.sub_diag by lia. cbn.
      by apply random_char_small.
    - specialize (IH (pre ++ [r])).
      rewrite <- app_assoc, length_app in IH. cbn in IH.
      rewrite Nat.add_1_r in IH. exact IH. }
  exact (G []).
Qed.

(** Different strings of reduced values give different suffixes. *)
Lemma suffix_of_inj (rs1 rs2 : list N) :
  Forall (fun r => r < 62) rs1 -> Forall (fun r => r < 62) rs2 ->
  suffix_of rs1 = suffix_of rs2 -> rs1 = rs2.
Proof.
  intros H1. revert rs2. induction H1 as [|r1 rs1 Hr1 _ IH];
    intros rs2 H2 E; destruct H2 as [|r2 rs2 Hr2 H2]; try done.
  unfold suffix_of in E. cbn in E. injection E as Ec Es.
  f_equal; [by apply char_of_residue_inj|by apply IH].
Qed.

(** ** loadSOHelper *)

#[local] Arguments resolve : simpl never.
#[local] Arguments Nat.ltb : simpl never.

Ltac lrun :=
  cbv [mbind mret M_bind M_ret m_bind m_ret m_get m_modify m_fault
       emit access_F_OK access_RWX mkdir symlink unlink dlopen
       ensureCacheDirExists getRandomString]; cbn.

Ltac lrun_in H :=
  cbv [mbind mret M_bind M_ret m_bind m_ret m_get m_modify m_fault
       emit access_F_OK access_RWX mkdir symlink unlink dlopen
       ensureCacheDirExists getRandomString] in H; cbn in H.

(** The first load of an artifact: it is opened under its own name, and no
    directory entry changes. *)
Lemma loadSOHelper_first (env : Env) (origName cacheDir resName : string)
    (st : State) :
  origName ∉ LoadedLibraries st ->
  let r := loadSOHelper env origName cacheDir resName st in
  fs (snd r) = fs st ∧
  ∃ h, fst r = Done h ∧
       (events (snd r) = events st ∨
        events (snd r) = events st ++ [EvDlopen origName h]).
Proof.
  intros Hnew. destruct st as [f ll dn dop rp hp na o ri ev]. simpl in Hnew.
  unfold loadSOHelper. lrun.
  case_bool_decide; cbn; [|eauto].
  rewrite bool_decide_true by done. cbn.
  destruct (resolve 8 f origName) as [[]|]; cbn; eauto.
  all: match goal with |- context [negb ?b] => destruct b end; cbn; eauto.
Qed.

(** A later load of the same artifact: it is opened through an alias,
    and the alias is removed again. The only directory entry that can
    differ afterwards is the cache directory, which is made when missing. *)
Lemma loadSOHelper_again (env : Env) (origName cacheDir resName : string)
    (st : State) :
  origName ∈ LoadedLibraries st ->
  let dir := cacheDir +:+ "/com.android.renderscript.cache/" in
  let alias := alias_name cacheDir resName
                 (random_chars (arc4random env) (rng_pos st) 6) in
  let r := loadSOHelper env origName cacheDir resName st in
  (∀ p, p ≠ dir -> fs (snd r) !! p = fs st !! p) ∧
  ∃ h, fst r = Done h ∧
       (h ≠ 0 ->
        fs (snd r) !! alias = None ∧
        ∃ pre, (pre = [] ∨ pre = [EvMkdir dir]) ∧
               events (snd r) =
                 events st ++ pre ++ [EvSymlink origName alias;
                                      EvDlopen alias h; EvUnlink alias]).
Proof.
  intros Hold dir alias.
  destruct st as [f ll dn dop rp hp na o ri ev]. simpl in Hold, alias.
  unfold loadSOHelper. lrun.
  case_bool_decide; cbn; [|split; [done|]; by exists 0].
  rewrite bool_decide_false by (by intros Hn). cbn. fold dir.
  assert (Hdone : ∀ f' pre,
    (∀ p, p ≠ dir -> f' !! p = f !! p) ->
    (pre = [] ∨ pre = [EvMkdir dir]) ->
    let r := (_ ← m_modify (set_rng_pos (rp + 6)%nat);
              linked ← symlink origName alias;
              if negb linked then mret 0
              else
                loaded ← dlopen alias;
                _ ← unlink alias;
                _ ← (if negb (loaded =? 0)
                     then m_modify (fun s =>
                            set_LoadedLibraries ({[alias]} ∪ LoadedLibraries s) s)
                     else mret tt);
                mret loaded)
               (mkState f' ll dn dop rp hp na o ri (ev ++ pre)) in
    (∀ p, p ≠ dir -> fs (snd r) !! p = f !! p) ∧
    ∃ h, fst r = Done h ∧
         (h ≠ 0 ->
          fs (snd r) !! alias = None ∧
          ∃ pre', (pre' = [] ∨ pre' = [EvMkdir dir]) ∧
                  events (snd r) =
                    ev ++ pre' ++ [EvSymlink origName alias;
                                   EvDlopen alias h; EvUnlink alias])).
  { intros f' pre Hf' Hpre. lrun.
    destruct (f' !! alias) as [n|] eqn:Ea; cbn.
    { split; [done|]. by exists 0. }
    assert (Hfs : ∀ p, p ≠ dir ->
              delete alias (<[alias := Link origName]> f') !! p = f !! p).
    { intros p Hp. destruct (decide (p = alias)) as [->|Hpa].
      - rewrite lookup_delete_eq. rewrite <- Hf' by done. by rewrite Ea.
      - rewrite lookup_delete_ne, lookup_insert_ne by done. by apply Hf'. }
    destruct (resolve 8 (<[alias:=Link origName]> f') alias) as [[]|]; cbn;
      rewrite ?lookup_insert_eq; cbn.
    1,3,4,5: split; [done|]; by exists 0.
    match goal with |- context [negb (?h =? 0)] =>
      destruct (N.eqb_spec h 0) as [E0|E0]; cbn end.
    - split; [done|]. eexists. split; [done|]. intros Hn. by rewrite E0 in Hn.
    - split; [done|]. eexists. split; [done|]. intros _.
      split; [apply lookup_delete_eq|]. exists pre. split; [done|].
      by rewrite <- !app_assoc. }
  destruct (resolve 8 f dir) as [[[]| | |]|] eqn:Er; cbn.
  1,3,4,5:
    specialize (Hdone f [] (fun _ _ => eq_refl) (or_introl eq_refl));
    rewrite app_nil_r in Hdone; lrun_in Hdone; exact Hdone.
  all: destruct (f !! dir) eqn:Ed; cbn; [split; [done|]; by exists 0|].
  all: assert (Hd : ∀ p, p ≠ dir -> <[dir := Dir true]> f !! p = f !! p)
         by (intros p Hp; by rewrite lookup_insert_ne);
       specialize (Hdone (<[dir := Dir true]> f) [EvMkdir dir] Hd
                         (or_intror eq_refl));
       lrun_in Hdone; exact Hdone.
Qed.

(** C7. [loadSOHelper] on an artifact that is not in [LoadedLibraries]
    opens it under its own name and changes no directory entry. On an
    artifact that is in the set, a load that yields a handle has made the
    alias [<cacheDir>/com.android.renderscript.cache/librs.<resName>#<6
    random characters>.so], opened the alias, and removed it, in this
    order: the alias has no directory entry afterwards, and no entry but
    the cache directory differs from before. The random part has 6
    characters of [A-Za-z0-9]; every one of the [62^6] strings of 6 reduced
    values is the random part for some run of the generator, different
    strings give different random parts, and [62^6 >= 10^10]. *)
Theorem C7_alias_instancing (env : Env)
    (origName cacheDir resName : string) (st : State) :
  let dir := cacheDir +:+ "/com.android.renderscript.cache/" in
  let suffix := random_chars (arc4random env) (rng_pos st) 6 in
  let alias := alias_name cacheDir resName suffix in
  let r := loadSOHelper env origName cacheDir resName st in
  (origName ∉ LoadedLibraries st ->
   fs (snd r) = fs st ∧
   ∃ h, fst r = Done h ∧
        (events (snd r) = events st ∨
         events (snd r) = events st ++ [EvDlopen origName h])) ∧
  (origName ∈ LoadedLibraries st ->
   (∀ p, p ≠ dir -> fs (snd r) !! p = fs st !! p) ∧
   ∃ h, fst r = Done h ∧
        (h ≠ 0 ->
         fs (snd r) !! alias = None ∧
         ∃ pre, (pre = [] ∨ pre = [EvMkdir dir]) ∧
                events (snd r) =
                  events st ++ pre ++ [EvSymlink origName alias;
                                       EvDlopen alias h; EvUnlink alias])) ∧
  (String.length suffix = 6%nat ∧
   Forall (fun c => alnum c = true) (String.list_ascii_of_string suffix)) ∧
  (∀ rs, length rs = 6%nat -> Forall (fun r => r < 62) rs ->
         random_chars (draws rs) 0 6 = suffix_of rs) ∧
  (∀ rs1 rs2, Forall (fun r => r < 62) rs1 -> Forall (fun r => r < 62) rs2 ->
              suffix_of rs1 = suffix_of rs2 -> rs1 = rs2) ∧
  10 ^ 10 <= 62 ^ 6.
Proof.
  intros dir suffix alias r. split; [|split; [|split; [|split; [|split]]]].
  - intros H. by apply loadSOHelper_first.
  - intros H. by apply loadSOHelper_again.
  - split; [apply random_chars_length|apply random_chars_alnum].
  - intros rs Hl Hr. rewrite <- Hl. by apply random_chars_draws.
  - apply suffix_of_inj.
  - by vm_compute.
Qed.

Lemma C7_alias_instancing_witness :
  ((sample_lib ∉ LoadedLibraries sample_fresh) ∧
   let r := loadSOHelper sample_env sample_lib "/data/app/cache" "foo"
              sample_fresh in
   fs (snd r) = sample_fs ∧ fst r = Done 1 ∧
   events (snd r) = [EvDlopen sample_lib 1]) ∧
  ((sample_lib ∈ LoadedLibraries sample_loaded) ∧
   let alias :=
     "/data/app/cache/com.android.renderscript.cache/librs.foo#dkryFM.so" in
   let r := loadSOHelper sample_env sample_lib "/data/app/cache" "foo"
              sample_loaded in
   fst r = Done 2 ∧ fs (snd r) !! alias = None ∧
   fs (snd r) !! sample_lib = Some Lib ∧
   events (snd r) =
     [EvMkdir "/data/app/cache/com.android.renderscript.cache/";
      EvSymlink sample_lib alias; EvDlopen alias 2; EvUnlink alias]).
Proof.
  split.
  - split; [set_solver|].
    destruct (proj1 (C7_alias_instancing sample_env sample_lib
                       "/data/app/cache" "foo" sample_fresh))
      as (H1 & h & H2 & H3); [set_solver|].
    split; [exact H1|]. split; by vm_compute.
  - split; [set_solver|].
    destruct (proj1 (proj2 (C7_alias_instancing sample_env sample_lib
                              "/data/app/cache" "foo" sample_loaded)))
      as (H1 & h & H2 & H3); [set_solver|].
    split; [by vm_compute|].
    assert (Hh : h = 2) by (vm_compute in H2; by injection H2).
    subst h. destruct H3 as (H4 & pre & H5 & H6); [done|].
    split; [exact H4|]. split; [by vm_compute|by vm_compute].
Defined.

(** ** Reasoning about runs *)

Lemma triple_ret {A} (P : State -> Prop) (a : A) (Q : A -> State -> Prop) :
  (∀ s, P s -> Q a s) -> triple P (mret a) Q.
Proof. intros H s Hs. by apply H. Qed.

Lemma triple_bind {A B} (P : State -> Prop) (c : M State A)
    (R : A -> State -> Prop) (k : A -> M State B) (Q : B -> State -> Prop) :
  triple P c R -> (∀ a, triple (R a) (k a) Q) -> triple P (c ≫= k) Q.
Proof.
  intros Hc Hk s Hs. rewrite bind_run. specialize (Hc s Hs).
  destruct (c s) as [[a|f] s']; [|done]. by apply Hk.
Qed.

Lemma triple_weaken {A} (P P' : State -> Prop) (c : M State A)
    (Q Q' : A -> State -> Prop) :
  (∀ s, P s -> P' s) -> (∀ a s, Q' a s -> Q a s) ->
  triple P' c Q' -> triple P c Q.
Proof.
  intros HP HQ Hc s Hs. specialize (Hc s (HP s Hs)).
  destruct (c s) as [[a|f] s']; [|done]. by apply HQ.
Qed.

Lemma triple_modify (P : State -> Prop) (f : State -> State)
    (Q : unit -> State -> Prop) :
  (∀ s, P s -> Q tt (f s)) -> triple P (m_modify f) Q.
Proof. intros H s Hs. by apply H. Qed.

Lemma triple_get (P : State -> Prop) :
  triple P m_get (fun s0 s => s = s0 ∧ P s).
Proof. intros s Hs. done. Qed.

Lemma triple_proceed {A} (P : State -> Prop) (c : M State A)
    (Q : A -> State -> Prop) (E : State -> Prop) :
  triple P c Q -> triple P (proceed c) (gpost Q E).
Proof.
  intros Hc. unfold proceed. eapply triple_bind; [exact Hc|].
  intros a. by apply triple_ret.
Qed.

Lemma triple_g_bind {A B} (P : State -> Prop) (c : M State (option A))
    (R : A -> State -> Prop) (k : A -> M State (option B))
    (Q : B -> State -> Prop) (E : State -> Prop) :
  triple P c (gpost R E) -> (∀ a, triple (R a) (k a) (gpost Q E)) ->
  triple P (g_bind c k) (gpost Q E).
Proof.
  intros Hc Hk. unfold g_bind. eapply triple_bind; [exact Hc|].
  intros [a|]; [apply Hk|]. by apply triple_ret.
Qed.

Lemma triple_for_each (Inv : N -> State -> Prop) (E : State -> Prop)
    (body : N -> M State (option unit)) (n : nat) :
  (∀ i, triple (Inv i) (body i) (gpost (fun _ => Inv (i + 1)) E)) ->
  ∀ i0, triple (Inv i0) (for_each n i0 body)
               (gpost (fun _ => Inv (i0 + N.of_nat n)) E).
Proof.
  intros Hb. induction n as [|n IH]; intros i0.
  - apply triple_ret. intros s Hs. cbn. by rewrite N.add_0_r.
  - cbn [for_each]. eapply triple_g_bind; [apply Hb|].
    intros u. eapply triple_weaken; [| |apply IH]; [done|].
    intros [[]|] s; cbn; [|done].
    by replace (i0 + 1 + N.of_nat n) with (i0 + N.of_nat (S n)) by lia.
Qed.

(** *** Steps that leave the members and the heap alone *)

Lemma keeps_core_ret {A} (a : A) : keeps_core (mret a : M State A).
Proof. by intros s. Qed.

Lemma keeps_core_bind {A B} (c : M State A) (k : A -> M State B) :
  keeps_core c -> (∀ a, keeps_core (k a)) -> keeps_core (c ≫= k).
Proof.
  intros Hc Hk s. rewrite bind_run. specialize (Hc s).
  destruct (c s) as [[a|f] s']; [|done]. rewrite <- Hc. apply Hk.
Qed.

Lemma keeps_core_modify (f : State -> State) :
  (∀ s, core (f s) = core s) -> keeps_core (m_modify f).
Proof. intros H s. apply H. Qed.

Lemma keeps_core_get : keeps_core (m_get : M State State).
Proof. by intros s. Qed.

Lemma keeps_core_fault {A} (f : fault) : keeps_core (m_fault f : M State A).
Proof. by intros s. Qed.

Ltac keeps :=
  repeat first
    [ apply keeps_core_ret
    | apply keeps_core_get
    | apply keeps_core_fault
    | apply keeps_core_modify; by intros []
    | apply keeps_core_bind; [|intros ?]
    | match goal with
      | |- keeps_core (if ?b then _ else _) => destruct b
      | |- keeps_core (match ?x with _ => _ end) => destruct x
      | |- keeps_core (let '(_, _) := ?x in _) => destruct x
      end ].

Lemma keeps_core_emit (e : event) : keeps_core (emit e).
Proof. unfold emit. keeps. Qed.

Lemma keeps_core_rsAssert (b : Build) (c : bool) (cond : string) :
  keeps_core (rsAssert b c cond).
Proof. unfold rsAssert, rsAssertWith. keeps. Qed.

Lemma keeps_core_strgets (size : nat) : keeps_core (strgets size).
Proof. unfold strgets. keeps. Qed.

Lemma keeps_core_loadSOHelper (env : Env) (o c r : string) :
  keeps_core (loadSOHelper env o c r).
Proof.
  unfold loadSOHelper, access_F_OK, ensureCacheDirExists, access_RWX, mkdir,
    getRandomString, symlink, dlopen, unlink, emit.
  keeps.
Qed.

Lemma keeps_core_loadSharedLibrary (env : Env) (c r : string) :
  keeps_core (loadSharedLibrary env c r).
Proof.
  unfold loadSharedLibrary.
  apply keeps_core_bind; [apply keeps_core_loadSOHelper|].
  intros h. destruct (h =? 0); [apply keeps_core_loadSOHelper|].
  apply keeps_core_ret.
Qed.

(** A step that keeps the core keeps every assertion about the core. *)
Lemma triple_keeps {A} (P : State -> Prop) (c : M State A) :
  keeps_core c ->
  (∀ s s', core s' = core s -> P s -> P s') ->
  triple P c (fun _ => P).
Proof.
  intros Hc HP s Hs. specialize (Hc s).
  destruct (c s) as [[a|f] s']; [|done]. by apply (HP s).
Qed.

(** *** The kernel table of a successful load *)

Ltac prim :=
  cbv [new_array store load delete_array upd_obj emit rsAssert rsAssertWith
       mbind M_bind m_bind mret M_ret m_ret m_get m_modify m_fault];
  cbn.

Lemma before_kernels_core (s s' : State) :
  core s' = core s -> before_kernels s -> before_kernels s'.
Proof. destruct s, s'. intros [= -> -> ->]. done. Qed.

Lemma kernel_loop_core (n : nat) (i : N) (s s' : State) :
  core s' = core s -> kernel_loop n i s -> kernel_loop n i s'.
Proof. destruct s, s'. intros [= -> -> ->]. done. Qed.

Lemma after_kernels_core (s s' : State) :
  core s' = core s -> after_kernels s -> after_kernels s'.
Proof. destruct s, s'. intros [= -> -> ->]. done. Qed.

Lemma strgets_before :
  triple before_kernels (strgets MAXLINE)
         (gpost (fun _ => before_kernels) any_state).
Proof.
  eapply triple_weaken;
    [| |apply (triple_keeps before_kernels), before_kernels_core;
        apply keeps_core_strgets]; [done|].
  by intros [l|] s.
Qed.

Lemma scanned_before {A} (o : option A) :
  triple before_kernels (mret o) (gpost (fun _ => before_kernels) any_state).
Proof. apply triple_ret. by destruct o. Qed.

(** Allocation and the members that are set before the kernels. *)
Lemma new_array_before (n : N) :
  triple before_kernels (new_array n)
         (fun p s => before_kernels s ∧ p < next_addr s).
Proof.
  intros [f ll dn dop rp hp na o ri ev] [H1 H2]. cbn in *.
  prim. unfold before_kernels. cbn. lia.
Qed.

Lemma store_before (p i v : N) :
  triple before_kernels (store p i v) (fun _ => before_kernels).
Proof.
  intros [f ll dn dop rp hp na o ri ev] H. prim.
  destruct (hp !! p) as [cells|]; [|done].
  match goal with |- context [if ?c then _ else _] => destruct c end; done.
Qed.

Lemma load_variables_before (env : Env) (so n : N) :
  triple before_kernels (load_variables env so n)
         (gpost (fun _ => before_kernels) any_state).
Proof.
  unfold load_variables.
  eapply triple_g_bind.
  { apply triple_proceed, triple_modify with (Q := fun _ => before_kernels).
    by intros []. }
  intros ?. destruct (0 <? n); [|by apply triple_ret].
  eapply triple_g_bind; [apply triple_proceed, new_array_before|].
  intros p. eapply triple_g_bind.
  { apply triple_proceed, triple_modify with (Q := fun _ => before_kernels).
    intros [] [[H1 H2] H3]. split; [exact H3|exact H2]. }
  intros ?. eapply triple_g_bind.
  { apply triple_proceed. eapply triple_weaken; [| |apply new_array_before].
    - done.
    - intros q s [H _]. exact H. }
  intros q. eapply triple_g_bind.
  { apply triple_proceed, triple_modify with (Q := fun _ => before_kernels).
    by intros []. }
  intros ?.
  eapply triple_weaken;
    [| |apply (triple_for_each (fun _ => before_kernels) any_state)];
    [done|by intros [[]|]|].
  intros i. eapply triple_g_bind; [apply strgets_before|].
  intros line. eapply triple_g_bind.
  { apply triple_proceed. apply triple_get. }
  intros s0. apply triple_proceed.
  eapply triple_weaken; [| |apply store_before]; [by intros s [_ H]|done].
Qed.

Lemma load_functions_before (env : Env) (so n : N) :
  triple before_kernels (load_functions env so n)
         (gpost (fun _ => before_kernels) any_state).
Proof.
  unfold load_functions.
  eapply triple_g_bind.
  { apply triple_proceed, triple_modify with (Q := fun _ => before_kernels).
    by intros []. }
  intros ?. destruct (0 <? n); [|by apply triple_ret].
  eapply triple_g_bind.
  { apply triple_proceed. eapply triple_weaken; [| |apply new_array_before].
    - done.
    - intros q s [H _]. exact H. }
  intros p. eapply triple_g_bind.
  { apply triple_proceed, triple_modify with (Q := fun _ => before_kernels).
    by intros []. }
  intros ?.
  eapply triple_weaken;
    [| |apply (triple_for_each (fun _ => before_kernels) any_state)];
    [done|by intros [[]|]|].
  intros i. eapply triple_g_bind; [apply strgets_before|].
  intros line. eapply triple_g_bind.
  { apply triple_proceed. apply triple_get. }
  intros s0. eapply triple_g_bind.
  { apply triple_proceed.
    eapply triple_weaken; [| |apply store_before]; [by intros s [_ H]|].
    intros ? s H. exact H. }
  intros ?. destruct (_ =? 0); by apply triple_ret.
Qed.

(** One kernel (lines 613-641): when the step falls through, the cell of
    slot [i] holds an address unless [i] is 0. *)
Lemma load_kernel_loop (env : Env) (so : N) (n : nat) (i : N) :
  triple (kernel_loop n i) (load_kernel env so i)
         (gpost (fun _ => kernel_loop n (i + 1)) any_state).
Proof.
  unfold load_kernel.
  eapply triple_g_bind.
  { eapply triple_weaken;
      [| |apply (triple_keeps (kernel_loop n i)), kernel_loop_core;
          apply keeps_core_strgets]; [done|].
    intros [l|] s H; [exact H|done]. }
  intros line. eapply triple_g_bind.
  { apply triple_ret with (Q := gpost (fun _ => kernel_loop n i) any_state).
    by destruct (sscanf_foreach line). }
  intros scanned. cbv zeta.
  intros [f ll dn dop rp hp na o ri ev] (Hq1 & Hq2 & Hq3 & fns & Hf & Hl & Hj).
  cbn in Hq1, Hq2, Hq3, Hf.
  unfold g_bind, proceed. prim.
  destruct (hp !! mForEachSignatures o) as [sigs|] eqn:Es; cbn; [|done].
  destruct (N.to_nat i <? length sigs)%nat; cbn; [|done].
  rewrite lookup_insert_ne by done. rewrite Hf.
  destruct (N.to_nat i <? length fns)%nat eqn:Ei; cbn; [|done].
  apply Nat.ltb_lt in Ei.
  set (fn := dlsym env so (expand_name scanned.2)).
  destruct (negb (i =? 0) && (fn =? 0)) eqn:Eg; [done|]. cbn.
  unfold kernel_loop. cbn. split; [done|]. split; [done|]. split; [done|].
  rewrite lookup_insert_eq. eexists. split; [done|].
  split; [by rewrite length_insert|].
  intros j Hjr. destruct (decide (j = N.to_nat i)) as [->|Hne].
  - rewrite list_lookup_insert_eq by done. intros [= E0].
    rewrite E0, N.eqb_refl, andb_true_r in Eg.
    apply negb_false_iff, N.eqb_eq in Eg. lia.
  - rewrite list_lookup_insert_ne by done. apply Hj. lia.
Qed.

Lemma load_kernels_after (env : Env) (so n : N) :
  triple before_kernels (load_kernels env so n)
         (gpost (fun _ => after_kernels) any_state).
Proof.
  unfold load_kernels.
  destruct (0 <? n).
  2: { apply triple_ret. intros s [_ H]. by left. }
  eapply triple_g_bind; [apply triple_proceed, new_array_before|].
  intros p. eapply triple_g_bind.
  { apply triple_proceed,
      triple_modify with (Q := fun _ s => before_kernels s ∧
                                 mForEachSignatures (obj s) < next_addr s).
    by intros []. }
  intros ?. eapply triple_g_bind.
  { apply triple_proceed.
    instantiate (1 := fun q s =>
      heap s !! q = Some (replicate (N.to_nat n) 0) ∧ q < next_addr s ∧
      mFieldIsObject (obj s) < q ∧ mForEachSignatures (obj s) < q).
    intros [f ll dn dop rp hp na o ri ev] [[H1 H2] H3]. cbn in *. prim.
    rewrite lookup_insert_eq. repeat split; try done. lia. }
  intros q. eapply triple_g_bind.
  { apply triple_proceed,
      triple_modify with (Q := fun _ => kernel_loop (N.to_nat n) 0).
    intros [f ll dn dop rp hp na o ri ev] (H1 & H2 & H3 & H4). cbn in *.
    unfold kernel_loop. cbn. repeat split; try lia.
    eexists. split; [done|]. split; [by rewrite length_replicate|]. lia. }
  intros ?.
  eapply triple_weaken;
    [| |apply (triple_for_each (kernel_loop (N.to_nat n)) any_state)];
    [done| |apply load_kernel_loop].
  intros [[]|] s; [|done]. cbn.
  intros (H1 & H2 & H3 & fns & Hf & Hl & Hj). right.
  split; [done|]. split; [done|]. exists fns. split; [done|].
  intros j Hj0. destruct (decide (j < length fns)%nat) as [Hlt|Hge].
  - apply Hj. lia.
  - rewrite lookup_ge_None_2 by lia. done.
Qed.

Lemma strgets_after :
  triple after_kernels (strgets MAXLINE)
         (gpost (fun _ => after_kernels) any_state).
Proof.
  eapply triple_weaken;
    [| |apply (triple_keeps after_kernels), after_kernels_core;
        apply keeps_core_strgets]; [done|].
  by intros [l|] s.
Qed.

Lemma scanned_after {A} (o : option A) :
  triple after_kernels (mret o) (gpost (fun _ => after_kernels) any_state).
Proof. apply triple_ret. by destruct o. Qed.

(** The object slots (lines 644-669) write to the object-flag array only. *)
Lemma load_object_slots_after (b : Build) (varCount n : N) :
  triple after_kernels (load_object_slots b varCount n)
         (gpost (fun _ => after_kernels) any_state).
Proof.
  unfold load_object_slots. destruct (0 <? n); [|by apply triple_ret].
  eapply triple_g_bind.
  { apply triple_proceed, (triple_keeps after_kernels), after_kernels_core.
    apply keeps_core_rsAssert. }
  intros ?.
  eapply triple_weaken;
    [| |apply (triple_for_each (fun _ => after_kernels) any_state)];
    [done|by intros [[]|]|].
  intros i. unfold load_object_slot.
  eapply triple_g_bind; [apply strgets_after|].
  intros line. eapply triple_g_bind; [apply scanned_after|].
  intros varNum. destruct (varNum <? varCount); [|by apply triple_ret].
  eapply triple_g_bind; [apply triple_proceed, triple_get|].
  intros s0. apply triple_proceed.
  intros [f ll dn dop rp hp na o ri ev] [<- H]. prim.
  destruct (hp !! mFieldIsObject o) as [cells|]; cbn; [|done].
  destruct (_ <? _)%nat; cbn; [|done].
  destruct H as [H|(H1 & H2 & fns & H3 & H4)]; [by left|right].
  cbn in *. split; [done|]. split; [done|]. exists fns.
  by rewrite lookup_insert_ne.
Qed.

Lemma new_array_after (n : N) :
  triple after_kernels (new_array n) (fun _ => after_kernels).
Proof.
  intros [f ll dn dop rp hp na o ri ev] H. prim.
  destruct H as [H|(H1 & H2 & fns & H3 & H4)]; [by left|right].
  cbn in *. split; [done|]. split; [lia|]. exists fns.
  rewrite lookup_insert_ne by lia. done.
Qed.

(** The work on a loaded object (lines 489-678): when it reaches its end,
    every kernel slot but slot 0 holds an address. *)
Lemma load_symbols_after (b : Build) (env : Env) (so : N) :
  triple before_kernels (load_symbols b env so)
         (gpost (fun _ => after_kernels) any_state).
Proof.
  unfold load_symbols.
  eapply triple_g_bind.
  { apply triple_proceed, triple_modify with (Q := fun _ => before_kernels).
    by intros []. }
  intros ?. eapply triple_g_bind.
  { apply triple_proceed, triple_modify with (Q := fun _ => before_kernels).
    by intros []. }
  intros ?. eapply triple_g_bind; [apply strgets_before|].
  intros ?. eapply triple_g_bind; [apply scanned_before|].
  intros varCount. eapply triple_g_bind; [apply load_variables_before|].
  intros ?. eapply triple_g_bind; [apply strgets_before|].
  intros ?. eapply triple_g_bind; [apply scanned_before|].
  intros funcCount. eapply triple_g_bind; [apply load_functions_before|].
  intros ?. eapply triple_g_bind; [apply strgets_before|].
  intros ?. eapply triple_g_bind; [apply scanned_before|].
  intros forEachCount. eapply triple_g_bind; [apply load_kernels_after|].
  intros ?. eapply triple_g_bind; [apply strgets_after|].
  intros ?. eapply triple_g_bind; [apply scanned_after|].
  intros objectSlotCount.
  eapply triple_g_bind; [apply load_object_slots_after|].
  intros ?. destruct (0 <? varCount); [|by apply triple_ret].
  eapply triple_g_bind; [apply triple_proceed, new_array_after|].
  intros p. apply triple_proceed, triple_modify. by intros [].
Qed.

Lemma triple_any {A} (P : State -> Prop) (c : M State A) :
  triple P c (fun _ => any_state).
Proof. intros s _. by destruct (c s) as [[a|f] s']. Qed.

(** The code at [error] ends in [return false]. *)
Lemma init_error_false (P : State -> Prop) :
  triple P init_error (fun r _ => r = false).
Proof.
  unfold init_error.
  repeat (eapply triple_bind; [apply triple_any|intros ?]).
  by apply triple_ret.
Qed.

Lemma init_after (b : Build) (env : Env) (resName cacheDir : string) :
  triple before_kernels (init b env resName cacheDir)
         (fun r s => r = true -> after_kernels s).
Proof.
  unfold init.
  eapply triple_bind.
  { apply (triple_keeps before_kernels), before_kernels_core.
    apply keeps_core_emit. }
  intros ?. eapply triple_bind.
  { apply (triple_keeps before_kernels), before_kernels_core.
    apply keeps_core_loadSharedLibrary. }
  intros so. eapply triple_bind.
  { apply triple_modify with (Q := fun _ => before_kernels). by intros []. }
  intros ?. eapply triple_bind.
  { instantiate (1 := gpost (fun _ => after_kernels) any_state).
    destruct (negb (so =? 0)); [apply load_symbols_after|by apply triple_ret]. }
  intros [[]|].
  - eapply triple_bind.
    { apply (triple_keeps after_kernels), after_kernels_core.
      apply keeps_core_emit. }
    intros ?. by apply triple_ret.
  - eapply triple_weaken; [| |apply (init_error_false any_state)]; [done|].
    by intros r s ->.
Qed.

(** One kernel record (lines 613-641): the step jumps to [error] because of
    the symbol only when the slot is not 0 and the expanded symbol does not
    resolve. *)
Lemma load_kernel_resolution (env : Env) (so i : N) (s s1 : State)
    (line name : string) (sig : N) :
  strgets MAXLINE s = (Done (Some line), s1) ->
  sscanf_foreach line = Some (sig, name) ->
  let fn := dlsym env so (expand_name name) in
  let r := load_kernel env so i s in
  (i ≠ 0 -> fn = 0 -> fst r ≠ Done (Some tt)) ∧
  (i = 0 ∨ fn ≠ 0 -> fst r ≠ Done None).
Proof.
  intros Hl Hs fn r.
  assert (Er : r = load_kernel env so i s) by done. clearbody r.
  unfold load_kernel, g_bind at 1 in Er.
  rewrite bind_run, Hl in Er. unfold g_bind at 1 in Er.
  rewrite bind_run in Er. cbn [mret M_ret m_ret] in Er.
  rewrite Hs in Er. cbn [fst snd] in Er. fold fn in Er.
  unfold g_bind, proceed in Er.
  destruct s1 as [f ll dn dop rp hp na o ri ev].
  cbv [store mbind M_bind m_bind mret M_ret m_ret m_get m_modify m_fault]
    in Er. cbn in Er.
  destruct (hp !! mForEachSignatures o) as [sigs|]; cbn in Er;
    [|by subst r].
  destruct (_ <? _)%nat; cbn in Er; [|by subst r].
  match type of Er with
  | context [match ?m !! ?k with _ => _ end] =>
      destruct (m !! k); cbn in Er
  end; [|by subst r].
  destruct (_ <? _)%nat; cbn in Er; [|by subst r].
  destruct (N.eqb_spec i 0) as [Hi|Hi], (N.eqb_spec fn 0) as [Hf|Hf];
    cbn in Er; subst r; cbn; split; try done; intros; try done;
    by intuition.
Qed.

(** C5. (a) After a load that succeeds, on a just constructed script
    object, every slot of the kernel table but slot 0 holds an address: a
    declared kernel of a slot above 0 whose expanded symbol does not
    resolve makes the load fail. (b) The step that reads one kernel record
    does not fall through when the slot is not 0 and the expanded symbol
    resolves to NULL, and does not jump to [error] on account of the symbol
    when the slot is 0 or the symbol resolves. *)
Theorem C5_expanded_kernel_resolution (b : Build) (env : Env) :
  (∀ (resName cacheDir : string) (st st' : State) (c1 c2 : N),
     obj st = constructed c1 c2 -> 0 < next_addr st ->
     init b env resName cacheDir st = (Done true, st') ->
     kernels_resolved st') ∧
  (∀ (so i : N) (s s1 : State) (line name : string) (sig : N),
     strgets MAXLINE s = (Done (Some line), s1) ->
     sscanf_foreach line = Some (sig, name) ->
     let fn := dlsym env so (expand_name name) in
     let r := load_kernel env so i s in
     (i ≠ 0 -> fn = 0 -> fst r ≠ Done (Some tt)) ∧
     (i = 0 ∨ fn ≠ 0 -> fst r ≠ Done None)).
Proof.
  split.
  - intros resName cacheDir st st' c1 c2 Ho Hn Hi.
    pose proof (init_after b env resName cacheDir st) as H.
    rewrite Hi in H.
    destruct H as [H|(_ & _ & fns & H1 & H2)]; [|done|by left|right; eauto].
    unfold before_kernels. rewrite Ho. cbn. done.
  - intros. by eapply load_kernel_resolution.
Qed.

Lemma C5_expanded_kernel_resolution_witness :
  let r := init build_compat sample_env "foo" "/data/app/cache"
             sample_fresh in
  obj sample_fresh = constructed 0 0 ∧ 0 < next_addr sample_fresh ∧
  fst r = Done true ∧
  heap (snd r) !! mForEachFunctions (obj (snd r)) = Some [0; 3000] ∧
  kernels_resolved (snd r) ∧
  fst (init build_compat sample_env_unresolved "foo" "/data/app/cache"
         sample_fresh) = Done false.
Proof.
  intros r.
  assert (Hr : fst r = Done true) by (by vm_compute).
  split; [reflexivity|]. split; [reflexivity|]. split; [exact Hr|].
  split; [by vm_compute|]. split; [|by vm_compute].
  apply (proj1 (C5_expanded_kernel_resolution build_compat sample_env)
           "foo" "/data/app/cache" sample_fresh (snd r) 0 0);
    [reflexivity|reflexivity|].
  rewrite <- Hr. apply surjective_pairing.
Defined.

(** ** Object-slot records *)

(** C10. The step that reads one object-slot record (lines 656-668), for a
    record that scans to the index [varNum]: when [varNum] is at or beyond
    the variable count, the step falls through and leaves the state as
    reading the line left it, so that no flag is set and nothing is
    written; when [varNum] is below the count and the object-flag array has
    as many cells as there are variables, the step sets the cell [varNum]
    of that array and nothing else. *)
Theorem C10_object_slot_out_of_range (varCount : N) (s s1 : State)
    (line : string) (varNum : N) :
  strgets MAXLINE s = (Done (Some line), s1) ->
  sscanf_u line = Some varNum ->
  (varCount <= varNum ->
   load_object_slot varCount s = (Done (Some tt), s1)) ∧
  (varNum < varCount ->
   ∀ cells, heap s1 !! mFieldIsObject (obj s1) = Some cells ->
            length cells = N.to_nat varCount ->
            load_object_slot varCount s =
              (Done (Some tt),
               set_heap (<[mFieldIsObject (obj s1) :=
                           <[N.to_nat varNum := 1]> cells]> (heap s1))
                        (next_addr s1) s1)).
Proof.
  intros Hl Hs.
  assert (E : load_object_slot varCount s =
              (if varNum <? varCount
               then s0 ←? proceed m_get;
                    proceed (store (mFieldIsObject (obj s0)) varNum 1)
               else mret (Some tt)) s1).
  { unfold load_object_slot, g_bind at 1. rewrite bind_run, Hl.
    unfold g_bind at 1. rewrite bind_run. cbn [mret M_ret m_ret].
    by rewrite Hs. }
  rewrite E. split.
  - intros Hge. by destruct (N.ltb_spec varNum varCount); [lia|].
  - intros Hlt cells Hc Hlen.
    destruct (N.ltb_spec varNum varCount); [|lia].
    unfold g_bind, proceed. prim. rewrite Hc. cbn.
    destruct (Nat.ltb_spec (N.to_nat varNum) (length cells)); [done|lia].
Qed.

Lemma C10_object_slot_out_of_range_witness :
  strgets MAXLINE sample_at_record
    = (Done (Some (unlines ["7"])), set_rsInfo (At EmptyString) sample_at_record) ∧
  sscanf_u (unlines ["7"]) = Some 7 ∧ 2 <= 7 ∧
  load_object_slot 2 sample_at_record
    = (Done (Some tt), set_rsInfo (At EmptyString) sample_at_record) ∧
  let r := init build_compat sample_env "foo" "/data/app/cache"
             sample_fresh in
  fst r = Done true ∧
  heap (snd r) !! mFieldIsObject (obj (snd r)) = Some [0; 1].
Proof.
  assert (H1 : strgets MAXLINE sample_at_record
    = (Done (Some (unlines ["7"])),
       set_rsInfo (At EmptyString) sample_at_record)) by reflexivity.
  assert (H2 : sscanf_u (unlines ["7"]) = Some 7) by reflexivity.
  assert (H3 : 2 <= 7) by (by vm_compute).
  split; [exact H1|]. split; [exact H2|]. split; [exact H3|].
  split; [exact (proj1 (C10_object_slot_out_of_range 2 sample_at_record _
                          _ 7 H1 H2) H3)|].
  split; by vm_compute.
Defined.

(** ** A load that fails *)

Lemma delete_array_released (o : ScriptObj) (ps : list N) (p : N) :
  triple (released o ps) (delete_array p) (fun _ => released o (p :: ps)).
Proof.
  intros [f ll dn dop rp hp na o' ri ev] [Ho Hps]. cbn in Ho, Hps.
  unfold delete_array. destruct (N.eqb_spec p 0) as [->|Hp]; cbn.
  { split; [done|]. intros q Hq Hq0. cbn.
    apply elem_of_cons in Hq as [->|Hq]; [done|by apply Hps]. }
  prim. destruct (hp !! p) as [cells|] eqn:E; cbn; [|done].
  split; [done|]. intros q Hq Hq0. cbn.
  apply elem_of_cons in Hq as [->|Hq]; [apply lookup_delete_eq|].
  destruct (decide (q = p)) as [->|Hne]; [apply lookup_delete_eq|].
  rewrite lookup_delete_ne by done. by apply Hps.
Qed.

(** The code at [error] resets no member: when it returns, every array
    member that was not NULL still holds its address, and the address names
    no live block any more. *)
Lemma dlclose_released (o : ScriptObj) (ps : list N) (h : N) :
  triple (released o ps) (dlclose h) (fun _ => released o ps).
Proof.
  intros [f ll dn dop rp hp na o' ri ev] H. unfold dlclose. prim.
  destruct (dop !! h) as [[|n]|]; cbn; done.
Qed.

Lemma init_error_leaves_dangling_members (s : State) :
  match init_error s with
  | (Done r, s') => r = false ∧ released (obj s) (array_members (obj s)) s'
  | (Fault _, _) => True
  end.
Proof.
  assert (T : forall o : ScriptObj,
    triple (released o [])
      (_ ← delete_array (mInvokeFunctions o);
       _ ← delete_array (mForEachFunctions o);
       _ ← delete_array (mFieldAddress o);
       _ ← delete_array (mFieldIsObject o);
       _ ← delete_array (mForEachSignatures o);
       _ ← delete_array (mBoundAllocs o);
       _ ← (if negb (mScriptSO o =? 0) then dlclose (mScriptSO o)
            else mret tt);
       mret false)
      (fun r s' => r = false ∧ released o (array_members o) s')).
  { intros o.
    do 6 (eapply triple_bind; [apply delete_array_released|intros ?]).
    eapply triple_bind.
    { destruct (negb _); [apply dlclose_released|].
      apply triple_ret. intros ? H. exact H. }
    intros ?. apply triple_ret. intros s1 [Ho H]. split; [done|].
    split; [done|]. intros p Hp. apply H.
    unfold array_members in Hp. rewrite !elem_of_cons in Hp.
    rewrite !elem_of_cons. tauto. }
  destruct s as [f ll dn dop rp hp na o ri ev].
  apply (T o (mkState f ll dn dop rp hp na o ri (ev ++ [EvUnlock]))).
  split; [done|]. intros p Hp. by apply elem_of_nil in Hp.
Qed.

(** So does every failed [init]: the array members of the object it leaves
    behind that are not NULL name no live block. *)
Lemma init_failure_leaves_dangling_members (b : Build) (env : Env)
    (resName cacheDir : string) (s : State) :
  match init b env resName cacheDir s with
  | (Done false, s') =>
      ∀ p, p ∈ array_members (obj s') -> p ≠ 0 -> heap s' !! p = None
  | _ => True
  end.
Proof.
  assert (H : triple any_state (init b env resName cacheDir)
                (fun r s' => r = false ->
                   ∀ p, p ∈ array_members (obj s') -> p ≠ 0 ->
                        heap s' !! p = None)).
  { unfold init.
    do 4 (eapply triple_bind; [apply triple_any|intros ?]).
    match goal with |- triple _ (match ?r with _ => _ end) _ =>
      destruct r end.
    - eapply triple_bind; [apply triple_any|intros ?].
      apply triple_ret. intros ? _ ?. done.
    - intros s0 _. pose proof (init_error_leaves_dangling_members s0) as H.
      destruct (init_error s0) as [[r|?] s']; [|done].
      destruct H as [_ [Ho H]]. intros _. by rewrite Ho. }
  specialize (H s I). destruct (init _ _ _ _ s) as [[[]|?] s']; auto.
Qed.

(** C4, at the failing input: the sample object with a descriptor that
    ends after its only variable. Within [init] the two arrays allocated
    so far are released once each and the handle is closed; but the members
    keep the addresses of the released arrays and the closed handle, and
    the destructor of the object then reads the released object-flag
    array. With an empty descriptor nothing is allocated, and the
    destructor closes the closed handle a second time. *)
Theorem C4_failed_load_keeps_released_pointers :
  let r := init build_compat sample_env_truncated "foo" "/data/app/cache"
             sample_fresh in
  fst r = Done false ∧
  events (snd r) =
    [EvLock; EvDlopen sample_lib 1; EvNew 1 1; EvNew 2 1; EvUnlock;
     EvDelete 2; EvDelete 1; EvDlclose 1] ∧
  heap (snd r) = ∅ ∧
  mFieldIsObject (obj (snd r)) = 1 ∧ mFieldAddress (obj (snd r)) = 2 ∧
  mScriptSO (obj (snd r)) = 1 ∧
  fst (destructor (snd r)) = Fault UseAfterFree ∧
  let r' := init build_compat sample_env_empty "foo" "/data/app/cache"
              sample_fresh in
  fst r' = Done false ∧
  events (snd r') = [EvLock; EvDlopen sample_lib 1; EvUnlock; EvDlclose 1] ∧
  mScriptSO (obj (snd r')) = 1 ∧
  fst (destructor (snd r')) = Fault DoubleFree.
Proof. vm_compute. repeat split; reflexivity. Qed.

End LoaderFacts.
